(** * The filtering extension: filter lists and the filtering cog

    A shallow embedding of
      - [bot/exts/filtering/_filter_lists/filter_list.py] ([ListType],
        [FilterList] with [add_list], [add_filter], [filter_list_result]);
      - [bot/exts/filtering/filtering.py] (the [Filtering] cog: [cog_load],
        [subscribe], [_resolve_action], [_get_list_by_name],
        [_get_filter_by_id]).

    Python dictionaries are [gmap]s, Python sets are [gset]s, exceptions are
    an explicit result type, and the module logger is the output of a small
    state-and-log monad.  Objects that Python tests for truth ([if x:]) are
    tested the way Python does it: [None], the empty mapping, the empty list
    and the empty string are false. *)

From stdpp Require Import base option list gmap sets strings.
From Stdlib Require Import ZArith Ascii.

Local Open Scope Z_scope.
Local Open Scope string_scope.
Local Open Scope list_scope.

(** ** Python values shared by both modules *)

(** The exceptions the two modules raise or let through. *)
Inductive exn : Type :=
  | TypeError (msg : string)
  | KeyError (key : string)
  | ValueError (msg : string)
  | BadArgument (msg : string).

Inductive result (A : Type) : Type :=
  | Ok (a : A)
  | Raise (e : exn).
Arguments Ok {A} a.
Arguments Raise {A} e.

(** What the module logger receives: the warning of [cog_load] for a list
    name without a class, and [log.warning(e)] of [add_filter]. *)
Inductive log_record : Type :=
  | warning_no_matching_class (list_name : string)
  | warning_exception (e : exn).

(** Raw setting values of an API record; they are only handed on to
    [create_settings] and to the filter constructor. *)
Inductive json : Type :=
  | JNull
  | JBool (b : bool)
  | JInt (z : Z)
  | JStr (s : string)
  | JStrs (l : list string).

(** [Event] of [_filter_context]. *)
Inductive Event : Type := MESSAGE | MESSAGE_EDIT.

Global Instance Event_eq_dec : EqDecision Event.
Proof. solve_decision. Defined.

Global Instance Event_countable : Countable Event.
Proof.
  refine (inj_countable' (λ e, match e with MESSAGE => false | MESSAGE_EDIT => true end)
            (λ b : bool, if b then MESSAGE_EDIT else MESSAGE) _).
  by intros [].
Defined.

(** Modelled from the spec: [FilterContext] is declared in
    [_filter_context], which is not part of the two modules; the spec gives
    its fields (event kind, actor, source location, textual content).  The
    decision procedures below only read it. *)
Record FilterContext : Type := {
  ctx_event : Event;
  ctx_author : string;
  ctx_channel : string;
  ctx_content : string
}.

(** ** Settings *)

(** A validation entry is an object with a predicate on the context. *)
Record ValidationEntry : Type := { triggers_on : FilterContext → bool }.

(** The action entries are polymorphic over their [__or__]: the class gives
    the combining rule of the entry type. *)
Class ActionEntry (V : Type) : Type := entry_or : V → V → V.

(** The three combining rules the specification names: boolean flags are
    or-ed, durations take the maximum, messages are concatenated. *)
Global Instance flag_entry : ActionEntry bool := orb.
Global Instance duration_entry : ActionEntry N := N.max.
Global Instance message_entry : ActionEntry string := String.append.

(** Modelled from the spec: [ValidationSettings.evaluate] lives in
    [_settings], which is not part of the two modules.  The spec: the
    group's evaluation calls every contained validation setting and
    partitions them into a passed and a failed set; a setting is identified
    by its unique name. *)
Definition evaluate (self : gmap string ValidationEntry) (ctx : FilterContext)
    : gset string * gset string :=
  map_fold
    (λ name validation acc,
       if triggers_on validation ctx
       then ({[name]} ∪ acc.1, acc.2)
       else (acc.1, {[name]} ∪ acc.2))
    (∅, ∅) self.

(** Modelled from the spec: [ActionSettings.__or__] lives in [_settings]
    too.  The spec: the merge resolves per setting name; if only one side
    defines a name that value is used, if both define it the combining rule
    of the setting type applies. *)
Definition ActionSettings_or {V} `{ActionEntry V} (self other : gmap string V)
    : gmap string V :=
  union_with (λ x y, Some (entry_or x y)) self other.

Infix "⊕" := ActionSettings_or (at level 50, left associativity).

(** [functools.reduce(function, iterable)] without an initial value, on a
    sequence that is not empty (on the empty one Python raises; the only
    call is guarded by [if actions:]). *)
Definition reduce {A} (f : A → A → A) (l : list A) : option A :=
  match l with
  | [] => None
  | x :: rest => Some (foldl f x rest)
  end.

(** Python's truth test of an optional mapping, and of an optional string. *)
Definition truthy_map {K A} `{Countable K} (o : option (gmap K A)) : bool :=
  match o with
  | Some m => bool_decide (m ≠ ∅)
  | None => false
  end.

Definition truthy_str (o : option string) : bool :=
  match o with
  | Some s => bool_decide (s ≠ "")
  | None => false
  end.

(** ** [filter_list.py] *)

Inductive ListType : Type := DENY | ALLOW.

Global Instance ListType_eq_dec : EqDecision ListType.
Proof. solve_decision. Defined.

Global Instance ListType_countable : Countable ListType.
Proof.
  refine (inj_countable' (λ t, match t with DENY => false | ALLOW => true end)
            (λ b : bool, if b then ALLOW else DENY) _).
  by intros [].
Defined.

(** [ListType(value)]: the enumeration looked up by value. *)
Definition ListType_of_value (value : Z) : result ListType :=
  if decide (value = 0) then Ok DENY
  else if decide (value = 1) then Ok ALLOW
  else Raise (ValueError "not a valid ListType").

(** A filter object: the fields the two modules read, and the
    content-matcher of its class as a method. *)
Record Filter (V : Type) : Type := {
  f_id : Z;
  f_content : string;
  f_description : option string;
  f_actions : option (gmap string V);
  f_validations : option (gmap string ValidationEntry);
  triggered_on : FilterContext → bool
}.
Arguments f_id {V} _.
Arguments f_content {V} _.
Arguments f_description {V} _.
Arguments f_actions {V} _.
Arguments f_validations {V} _.
Arguments triggered_on {V} _ _.

(** [dict.values()]. *)
Definition values {K A} `{Countable K} (m : gmap K A) : list A := (map_to_list m).*2.

(** [FilterList.filter_list_result].  [not filter_.validations] holds for
    [None] and for the empty group. *)
Definition filter_list_result {V} (ctx : FilterContext) (filters : gmap Z (Filter V))
    (defaults : gmap string ValidationEntry) : list (Filter V) :=
  let '(passed_by_default, failed_by_default) := evaluate defaults ctx in
  let default_answer := negb (bool_decide (failed_by_default ≠ ∅)) in
  foldl
    (λ relevant_filters filter_,
       let without_overrides :=
         if default_answer && triggered_on filter_ ctx
         then relevant_filters ++ [filter_]
         else relevant_filters in
       match f_validations filter_ with
       | None => without_overrides
       | Some validations =>
           if negb (bool_decide (validations ≠ ∅)) then without_overrides
           else
             let '(passed, failed) := evaluate validations ctx in
             if negb (bool_decide (failed ≠ ∅)) && bool_decide (failed_by_default ⊂ passed) then
               if triggered_on filter_ ctx
               then relevant_filters ++ [filter_]
               else relevant_filters
             else relevant_filters
       end)
    [] (values filters).

(** The same loop over the interface of the settings class.
    [ValidationSettings] is declared in [_settings]; the loop takes two
    things from a group: its truth value, in [not filter_.validations], and
    [evaluate].  [filter_list_result] above fixes both (a mapping that is
    false when it is empty, every setting of which lands in one of the two
    sets); here both are left to the class, and so are the two attributes
    of a filter that the loop reads. *)
Section settings_interface.
Context {F G : Type}.
Variable validations : F → option G.
Variable triggers : F → FilterContext → bool.
Variable bool_of : G → bool.
Variable evaluate_of : G → FilterContext → gset string * gset string.

Definition filter_list_result_of (ctx : FilterContext) (filters : gmap Z F) (defaults : G)
    : list F :=
  let '(passed_by_default, failed_by_default) := evaluate_of defaults ctx in
  let default_answer := negb (bool_decide (failed_by_default ≠ ∅)) in
  foldl
    (λ relevant_filters filter_,
       let without_overrides :=
         if default_answer && triggers filter_ ctx
         then relevant_filters ++ [filter_]
         else relevant_filters in
       match validations filter_ with
       | None => without_overrides
       | Some group =>
           if negb (bool_of group) then without_overrides
           else
             let '(passed, failed) := evaluate_of group ctx in
             if negb (bool_decide (failed ≠ ∅)) && bool_decide (failed_by_default ⊂ passed) then
               if triggers filter_ ctx
               then relevant_filters ++ [filter_]
               else relevant_filters
             else relevant_filters
       end)
    [] (values filters).
End settings_interface.

(** The truth value of an object whose class defines neither [__bool__] nor
    [__len__]: Python takes every such object for true. *)
Definition plain_object_bool {G} (group : G) : bool := true.

(** ** A state-and-log monad with exceptions

    A computation runs on the state of an object, returns a value or raises,
    leaves a state behind in both cases (Python does not roll back), and
    emits log records. *)
Definition M (S A : Type) : Type := S → result A * S * list log_record.

Definition ret {S A} (a : A) : M S A := λ s, (Ok a, s, []).

Definition bind {S A B} (m : M S A) (k : A → M S B) : M S B :=
  λ s,
    match m s with
    | (Ok a, s1, l1) => let '(r, s2, l2) := k a s1 in (r, s2, l1 ++ l2)
    | (Raise e, s1, l1) => (Raise e, s1, l1)
    end.

Definition raise {S A} (e : exn) : M S A := λ s, (Raise e, s, []).
Definition get {S} : M S S := λ s, (Ok s, s, []).
Definition put {S} (s : S) : M S unit := λ _, (Ok tt, s, []).
Definition log_warning {S} (r : log_record) : M S unit := λ s, (Ok tt, s, [r]).

(** A value that may have raised, and a subscript that raises on [None]. *)
Definition lift {S A} (r : result A) : M S A := λ s, (r, s, []).

Definition subscript {S A} (o : option A) (e : exn) : M S A :=
  match o with
  | Some a => ret a
  | None => raise e
  end.

(** [try: m except ...: handler]: the handler says which exceptions it
    catches. *)
Definition try_except {S A} (m : M S A) (handler : exn → option (M S A)) : M S A :=
  λ s,
    match m s with
    | (Ok a, s1, l1) => (Ok a, s1, l1)
    | (Raise e, s1, l1) =>
        match handler e with
        | Some h => let '(r, s2, l2) := h s1 in (r, s2, l1 ++ l2)
        | None => (Raise e, s1, l1)
        end
    end.

Notation "'do' x ← m ; k" := (bind m (λ x, k))
  (at level 10, x name, m at level 100, k at level 200).
Notation "'do' ' p ← m ; k" := (bind m (λ x, match x with p => k end))
  (at level 10, p pattern, m at level 100, k at level 200).
Notation "m ;; k" := (bind m (λ _, k)) (at level 100, k at level 200, right associativity).

(** [for x in l: body x]. *)
Fixpoint for_each {S A} (l : list A) (body : A → M S unit) : M S unit :=
  match l with
  | [] => ret tt
  | x :: rest => body x ;; for_each rest body
  end.

(** ** [FilterList] *)

(** One record of the [filters] array of the API: a dictionary that may
    lack its keys. *)
Record FilterData : Type := {
  fd_id : option Z;
  fd_content : option json;
  fd_description : option json;
  fd_settings : option (gmap string json)
}.

(** One record of [bot/filter/filter_lists]. *)
Record ListData : Type := {
  ld_name : string;
  ld_list_type : Z;
  ld_id : Z;
  ld_settings : gmap string json;
  ld_filters : list FilterData
}.

(** The dictionary [{"actions": actions, "validations": validations}]. *)
Record Defaults (V : Type) : Type := {
  d_actions : option (gmap string V);
  d_validations : option (gmap string ValidationEntry)
}.
Arguments d_actions {V} _.
Arguments d_validations {V} _.

(** The type of [create_settings] of [_settings], which the model takes as
    a parameter: raw settings and [keep_empty] to the pair of groups, or an
    exception. *)
Definition create_settings_t (V : Type) : Type :=
  gmap string json → bool → result (option (gmap string V) * option (gmap string ValidationEntry)).

Record FilterList (V : Type) : Type := {
  list_ids : gmap ListType Z;
  filter_lists : gmap ListType (gmap Z (Filter V));
  defaults : gmap ListType (Defaults V);
  filter_type : FilterData → result (Filter V)
}.
Arguments list_ids {V} _.
Arguments filter_lists {V} _.
Arguments defaults {V} _.
Arguments filter_type {V} _ _.

(** [FilterList.__init__]. *)
Definition FilterList_init {V} (filter_type : FilterData → result (Filter V)) : FilterList V :=
  {| list_ids := ∅; filter_lists := ∅; defaults := ∅; filter_type := filter_type |}.

Definition set_list_ids {V} (f : gmap ListType Z → gmap ListType Z) : M (FilterList V) unit :=
  λ self,
    (Ok tt,
     {| list_ids := f (list_ids self); filter_lists := filter_lists self;
        defaults := defaults self; filter_type := filter_type self |}, []).

Definition set_filter_lists {V}
    (f : gmap ListType (gmap Z (Filter V)) → gmap ListType (gmap Z (Filter V)))
    : M (FilterList V) unit :=
  λ self,
    (Ok tt,
     {| list_ids := list_ids self; filter_lists := f (filter_lists self);
        defaults := defaults self; filter_type := filter_type self |}, []).

Definition set_defaults {V} (f : gmap ListType (Defaults V) → gmap ListType (Defaults V))
    : M (FilterList V) unit :=
  λ self,
    (Ok tt,
     {| list_ids := list_ids self; filter_lists := filter_lists self;
        defaults := f (defaults self); filter_type := filter_type self |}, []).

(** [FilterList.add_filter].  The right-hand side of the assignment is
    evaluated first, then [self.filter_lists[list_type]], then
    [filter_data["id"]]; only a [TypeError] is caught. *)
Definition add_filter {V} (filter_data : FilterData) (list_type : ListType)
    : M (FilterList V) unit :=
  try_except
    (do self ← get;
     do new_filter ← lift (filter_type self filter_data);
     do sublist ← subscript (filter_lists self !! list_type) (KeyError "list_type");
     do key ← subscript (fd_id filter_data) (KeyError "id");
     set_filter_lists (λ lists, <[list_type := <[key := new_filter]> sublist]> lists))
    (λ e,
       match e with
       | TypeError _ => Some (log_warning (warning_exception e))
       | _ => None
       end).

(** [FilterList.add_list]. *)
Definition add_list {V} (create_settings : create_settings_t V)
    (list_data : ListData) : M (FilterList V) unit :=
  do ' (actions, validations) ← lift (create_settings (ld_settings list_data) true);
  do list_type ← lift (ListType_of_value (ld_list_type list_data));
  set_defaults
    (λ d, <[list_type := {| d_actions := actions; d_validations := validations |}]> d) ;;
  set_list_ids (λ ids, <[list_type := ld_id list_data]> ids) ;;
  set_filter_lists (λ lists, <[list_type := ∅]> lists) ;;
  for_each (ld_filters list_data) (λ filter_data, add_filter filter_data list_type).

(** ** [filtering.py] *)

(** Modelled from the spec: the concrete filter-list classes registered in
    [filter_list_types] are declared in [_filter_lists], outside the two
    modules.  A class is called with the cog; per the spec a list hands its
    filter type to [FilterList.__init__] and registers its interest in one
    or more event kinds with the cog. *)
Record FilterListClass (V : Type) : Type := {
  cls_filter_type : FilterData → result (Filter V);
  cls_events : list Event
}.
Arguments cls_filter_type {V} _ _.
Arguments cls_events {V} _.

(** The cog.  A filter list object is referred to by the unique [name] of
    its class, under which [filter_lists] holds it; [_subscriptions] holds
    such references.  The webhook and the [loaded_*] dictionaries play no
    part in the functions below. *)
Record Filtering (V : Type) : Type := {
  cog_filter_lists : gmap string (FilterList V);
  cog_subscriptions : gmap Event (list string)
}.
Arguments cog_filter_lists {V} _.
Arguments cog_subscriptions {V} _.

(** [Filtering.__init__]. *)
Definition Filtering_init {V} : Filtering V :=
  {| cog_filter_lists := ∅; cog_subscriptions := ∅ |}.

(** [d[key]] on a [defaultdict(list)]: a missing key is entered with the
    empty list. *)
Definition defaultdict_getitem {K A} `{Countable K} (d : gmap K (list A)) (key : K)
    : list A * gmap K (list A) :=
  match d !! key with
  | Some l => (l, d)
  | None => ([], <[key := []]> d)
  end.

(** [Filtering.subscribe]. *)
Definition subscribe {V} (filter_list : string) (events : list Event) (self : Filtering V)
    : Filtering V :=
  foldl
    (λ self event,
       let '(subscribed, subscriptions) :=
         defaultdict_getitem (cog_subscriptions self) event in
       {| cog_filter_lists := cog_filter_lists self;
          cog_subscriptions :=
            if bool_decide (filter_list ∉ subscribed)
            then <[event := subscribed ++ [filter_list]]> subscriptions
            else subscriptions |})
    self events.

(** A method call on [self.filter_lists[list_name]]: the method runs on the
    object and the object stays where it is. *)
Definition on_filter_list {V A} (list_name : string) (m : M (FilterList V) A)
    : M (Filtering V) A :=
  λ self,
    match cog_filter_lists self !! list_name with
    | None => (Raise (KeyError list_name), self, [])
    | Some filter_list =>
        let '(r, filter_list', l) := m filter_list in
        (r,
         {| cog_filter_lists := <[list_name := filter_list']> (cog_filter_lists self);
            cog_subscriptions := cog_subscriptions self |},
         l)
    end.

(** [filter_list_types[list_name](self)] followed by the assignment to
    [self.filter_lists[list_name]]. *)
Definition instantiate {V} (list_name : string) (cls : FilterListClass V)
    : M (Filtering V) unit :=
  λ self,
    let self' := subscribe list_name (cls_events cls) self in
    (Ok tt,
     {| cog_filter_lists :=
          <[list_name := FilterList_init (cls_filter_type cls)]> (cog_filter_lists self');
        cog_subscriptions := cog_subscriptions self' |},
     []).

(** The loop of [cog_load] over the fetched records; [already_warned] is
    the local set. *)
Fixpoint cog_load_loop {V} (filter_list_types : gmap string (FilterListClass V))
    (create_settings : create_settings_t V)
    (raw_filter_lists : list ListData) (already_warned : gset string)
    : M (Filtering V) unit :=
  match raw_filter_lists with
  | [] => ret tt
  | raw_filter_list :: rest =>
      let list_name := ld_name raw_filter_list in
      do self ← get;
      if bool_decide (list_name ∉ dom (cog_filter_lists self)) then
        match filter_list_types !! list_name with
        | None =>
            if bool_decide (list_name ∉ already_warned) then
              log_warning (warning_no_matching_class list_name) ;;
              cog_load_loop filter_list_types create_settings rest
                ({[list_name]} ∪ already_warned)
            else
              cog_load_loop filter_list_types create_settings rest already_warned
        | Some cls =>
            instantiate list_name cls ;;
            on_filter_list list_name (add_list create_settings raw_filter_list) ;;
            cog_load_loop filter_list_types create_settings rest already_warned
        end
      else
        on_filter_list list_name (add_list create_settings raw_filter_list) ;;
        cog_load_loop filter_list_types create_settings rest already_warned
  end.

(** [Filtering.cog_load], from the fetched [raw_filter_lists] to the end of
    the loop (the webhook and the collection of the loaded types follow). *)
Definition cog_load {V} (filter_list_types : gmap string (FilterListClass V))
    (create_settings : create_settings_t V) (raw_filter_lists : list ListData)
    : M (Filtering V) unit :=
  cog_load_loop filter_list_types create_settings raw_filter_lists ∅.

(** [Filtering._resolve_action].  [actions_for] is the abstract method of
    the filter lists, taken as a parameter: the list referred to and the
    context give the optional actions and the optional message.  The cog is
    returned too, for the entry the [defaultdict] may have made. *)
Definition _resolve_action {V} `{ActionEntry V}
    (actions_for : string → FilterContext → option (gmap string V) * option string)
    (self : Filtering V) (ctx : FilterContext)
    : (option (gmap string V) * gmap string string) * Filtering V :=
  let '(subscribed, subscriptions) :=
    defaultdict_getitem (cog_subscriptions self) (ctx_event ctx) in
  let '(actions, messages) :=
    foldl
      (λ '(actions, messages) filter_list,
         let '(list_actions, list_message) := actions_for filter_list ctx in
         let actions :=
           match list_actions with
           | Some a => if bool_decide (a ≠ ∅) then actions ++ [a] else actions
           | None => actions
           end in
         let messages :=
           match list_message with
           | Some msg => if bool_decide (msg ≠ "") then <[filter_list := msg]> messages else messages
           | None => messages
           end in
         (actions, messages))
      ([], ∅) subscribed in
  let result_actions :=
    if bool_decide (actions ≠ []) then reduce ActionSettings_or actions else None in
  ((result_actions, messages),
   {| cog_filter_lists := cog_filter_lists self; cog_subscriptions := subscriptions |}).

(** [str.endswith] and the slice [s[:-1]]. *)
Fixpoint endswith (s suffix : string) : bool :=
  if String.eqb s suffix then true
  else
    match s with
    | EmptyString => false
    | String _ s' => endswith s' suffix
    end.

Fixpoint drop_last (s : string) : string :=
  match s with
  | EmptyString => EmptyString
  | String c EmptyString => EmptyString
  | String c s' => String c (drop_last s')
  end.

(** [Filtering._get_list_by_name]; the trace records are left out. *)
Definition _get_list_by_name {V} (self : Filtering V) (list_name : string)
    : result (FilterList V) :=
  match cog_filter_lists self !! list_name with
  | Some filter_list => Ok filter_list
  | None =>
      let filter_list :=
        if endswith list_name "s"
        then cog_filter_lists self !! drop_last list_name
        else None in
      match filter_list with
      | Some filter_list => Ok filter_list
      | None => Raise (BadArgument ("There's no filter list named '" +:+ list_name +:+ "'."))
      end
  end.

(** The first element of a sequence on which [f] returns something: a loop
    with a [return] in it. *)
Fixpoint first_some {A B} (f : A → option B) (l : list A) : option B :=
  match l with
  | [] => None
  | x :: rest =>
      match f x with
      | Some b => Some b
      | None => first_some f rest
      end
  end.

(** [Filtering._get_filter_by_id]: [None] is what Python returns when the
    loops end without a [return]. *)
Definition _get_filter_by_id {V} (self : Filtering V) (id_ : Z)
    : option (Filter V * FilterList V * ListType) :=
  first_some
    (λ filter_list : FilterList V,
       first_some
         (λ '(list_type, sublist),
            match (sublist : gmap Z (Filter V)) !! id_ with
            | Some filter_ => Some (filter_, filter_list, list_type)
            | None => None
            end)
         (map_to_list (filter_lists filter_list)))
    (values (cog_filter_lists self)).

(** ** Concrete objects used by the examples below *)

Definition ctx_general : FilterContext :=
  {| ctx_event := MESSAGE; ctx_author := "user"; ctx_channel := "general";
     ctx_content := "some text" |}.

Definition always (b : bool) : ValidationEntry := {| triggers_on := λ _, b |}.

(** A filter with flag actions whose matcher always triggers. *)
Definition filter_with (id_ : Z) (validations : option (gmap string ValidationEntry))
    : Filter bool :=
  {| f_id := id_; f_content := "text"; f_description := None; f_actions := None;
     f_validations := validations; triggered_on := λ _, true |}.

(** The list-wide gate on the channel, and a filter that overrides it. *)
Definition defaults_channel_fails : gmap string ValidationEntry :=
  {["channel_scope" := always false]}.

Definition overrides_channel_passes : gmap string ValidationEntry :=
  {["channel_scope" := always true]}.

(** A filter class for the examples: its constructor subscripts the record
    for [id] and [content] (a missing key is a [KeyError]) and rejects a
    content that is not a string with a [TypeError]; the matcher looks for
    the content in the text. *)
Definition TokenFilter (filter_data : FilterData) : result (Filter bool) :=
  match fd_id filter_data with
  | None => Raise (KeyError "id")
  | Some id_ =>
      match fd_content filter_data with
      | None => Raise (KeyError "content")
      | Some (JStr pattern) =>
          Ok {| f_id := id_; f_content := pattern; f_description := None;
                f_actions := None; f_validations := None;
                triggered_on := λ ctx,
                  match String.index 0 pattern (ctx_content ctx) with
                  | Some _ => true
                  | None => false
                  end |}
      | Some _ => Raise (TypeError "content is not a string")
      end
  end.

(** A filter class whose constructor takes every record. *)
Definition AnyFilter (filter_data : FilterData) : result (Filter bool) :=
  Ok (filter_with (default 0 (fd_id filter_data)) None).

Definition filter_record (id_ : option Z) (content : option json) : FilterData :=
  {| fd_id := id_; fd_content := content; fd_description := None; fd_settings := None |}.

(** A cog that holds the list named [token]. *)
Definition cog_token : Filtering bool :=
  {| cog_filter_lists := {["token" := FilterList_init TokenFilter]};
     cog_subscriptions := {[MESSAGE := ["token"]]} |}.

(** [str.lower], on the letters of ASCII. *)
Definition lower_ascii (c : ascii) : ascii :=
  let n := nat_of_ascii c in
  if (65 <=? n)%nat && (n <=? 90)%nat then ascii_of_nat (n + 32) else c.

Fixpoint lower (s : string) : string :=
  match s with
  | EmptyString => EmptyString
  | String c s' => String (lower_ascii c) (lower s')
  end.

(** [create_settings] for the examples: every record gets two empty
    groups. *)
Definition create_empty_settings : create_settings_t bool :=
  λ _ _, Ok (Some ∅, Some ∅).

(** A filter list with its deny list loaded and filter 1 in it. *)
Definition loaded_list (filter_type : FilterData → result (Filter bool)) : FilterList bool :=
  {| list_ids := {[DENY := 5]};
     filter_lists := {[DENY := {[1 := filter_with 1 None]}]};
     defaults := {[DENY := {| d_actions := Some ∅; d_validations := Some ∅ |}]};
     filter_type := filter_type |}.

(** Two records of the API for the deny list of [token]: the first holds
    filter 1, the second filter 2. *)
Definition deny_list_data (filters : list FilterData) : ListData :=
  {| ld_name := "token"; ld_list_type := 0; ld_id := 5; ld_settings := ∅;
     ld_filters := filters |}.

Definition first_load : ListData :=
  deny_list_data [filter_record (Some 1) (Some (JStr "spam"))].

Definition second_load : ListData :=
  deny_list_data [filter_record (Some 2) (Some (JStr "eggs"))].

(** The filter stored under an id in the list of a type, if any. *)
Definition stored_filter {V} (self : FilterList V) (list_type : ListType) (id_ : Z)
    : option (Filter V) :=
  filter_lists self !! list_type ≫= λ sublist, sublist !! id_.

(** The record of filter 2 and the filter that [TokenFilter] makes of it. *)
Definition eggs_record : FilterData := filter_record (Some 2) (Some (JStr "eggs")).

Definition eggs_filter : Filter bool :=
  {| f_id := 2; f_content := "eggs"; f_description := None;
     f_actions := None; f_validations := None;
     triggered_on := λ ctx,
       match String.index 0 "eggs" (ctx_content ctx) with
       | Some _ => true
       | None => false
       end |}.

(** ** More of [filter_list.py]: the converter of list types *)

(** The table [aliases]: the names under which a command may give each
    list type. *)
Definition deny_aliases : gset string :=
  {["deny"; "blocklist"; "blacklist"; "denylist"; "bl"; "dl"]}.

Definition allow_aliases : gset string :=
  {["allow"; "allowlist"; "whitelist"; "al"; "wl"]}.

Definition aliases : list (ListType * gset string) :=
  [(DENY, deny_aliases); (ALLOW, allow_aliases)].

(** A stand-in for [past_tense] in the examples: the regular ending. *)
Definition regular_past_tense (word : string) : string := word +:+ "ed".

(** [list_type_converter].  [past_tense] of [_utils] is not part of the two
    modules and is a parameter; [lower] is [str.lower] on ASCII text. *)
Definition list_type_converter (past_tense : string → string) (argument : string)
    : result ListType :=
  let argument := lower argument in
  match
    first_some
      (λ '(list_type, list_aliases),
         if bool_decide (argument ∈ (list_aliases : gset string)) ||
            bool_decide (argument ∈ past_tense <$> elements list_aliases)
         then Some list_type else None)
      aliases
  with
  | Some list_type => Ok list_type
  | None => Raise (BadArgument ("No matching list type found for '" +:+ argument +:+ "'."))
  end.

(** ** More of [filtering.py]: the commands *)

(** What a describing command answers: the embed that lists the names, the
    embed that describes one object under the name as it was typed, or the
    message that there is no such name. *)
Inductive describe_reply (D : Type) : Type :=
  | names_reply (names : list string)
  | description_reply (typed_name : string) (described : D)
  | not_found_reply (typed_name : string).
Arguments names_reply {D} names.
Arguments description_reply {D} typed_name described.
Arguments not_found_reply {D} typed_name.

(** [list(d)]: the keys of a dictionary, in the order of the map (which is
    not Python's order of insertion; the properties below are about
    membership). *)
Definition keys {K A} `{Countable K} (m : gmap K A) : list K := (map_to_list m).*1.

(** [not name] for an optional string argument. *)
Definition not_given (name : option string) : bool := negb (truthy_str name).

(** [Filtering.f_describe]: [loaded_filters] maps the names of the filter
    classes to the classes, which Python takes for true. *)
Definition f_describe {T} (loaded_filters : gmap string T) (filter_name : option string)
    : describe_reply T :=
  if not_given filter_name then names_reply (keys loaded_filters)
  else
    let filter_name := default "" filter_name in
    match loaded_filters !! filter_name with
    | Some filter_type => description_reply filter_name filter_type
    | None =>
        match loaded_filters !! drop_last filter_name with
        | Some filter_type => description_reply filter_name filter_type
        | None => not_found_reply filter_name
        end
    end.

(** [sep in s] and [s.split(sep, maxsplit=1)] for a separator of one
    character: the parts before and after its first occurrence. *)
Fixpoint split_once (sep : ascii) (s : string) : option (string * string) :=
  match s with
  | EmptyString => None
  | String c s' =>
      if Ascii.eqb c sep then Some (EmptyString, s')
      else
        match split_once sep s' with
        | Some (before, after) => Some (String c before, after)
        | None => None
        end
  end.

(** [Filtering.s_describe]: [loaded_settings] maps a setting name to the
    pair of its description and its type, [loaded_filter_settings] maps a
    filter name to such a dictionary of its own fields. *)
Definition s_describe {T} (loaded_settings : gmap string (string * T))
    (loaded_filter_settings : gmap string (gmap string (string * T)))
    (setting_name : option string) : describe_reply string :=
  if not_given setting_name then
    names_reply
      (foldl
         (λ settings_list '(filter_name, filter_settings),
            settings_list ++
            ((λ setting, filter_name +:+ "/" +:+ setting) <$> keys filter_settings))
         (keys loaded_settings) (map_to_list loaded_filter_settings))
  else
    let setting_name := default "" setting_name in
    let description :=
      match loaded_settings !! setting_name with
      | Some setting_data => Some setting_data.1
      | None =>
          match split_once "/" setting_name with
          | Some (filter_name, filter_setting_name) =>
              match loaded_filter_settings !! filter_name with
              | Some filter_settings =>
                  match filter_settings !! filter_setting_name with
                  | Some field => Some field.1
                  | None => None
                  end
              | None => None
              end
          | None => None
          end
      end in
    match description with
    | Some description => description_reply setting_name description
    | None => not_found_reply setting_name
    end.

(** The two constants of the module. *)
Definition MAX_FIELD_SIZE : nat := 1018.
Definition MAX_INLINE_SIZE : nat := 50.

(** The slice [s[:n]] and [str.startswith]. *)
Fixpoint take_chars (n : nat) (s : string) : string :=
  match n, s with
  | S n', String c s' => String c (take_chars n' s')
  | _, _ => EmptyString
  end.

Definition startswith (s prefix : string) : bool := String.prefix prefix s.

(** A field of an embed, as [Embed.add_field] receives it. *)
Record EmbedField : Type := {
  field_name : string;
  field_value : string;
  field_inline : bool
}.

(** [str(value)]: a string is its own text; how the other values print is
    left to the parameter. *)
Definition py_str (str_other : json → string) (value : json) : string :=
  match value with
  | JStr s => s
  | _ => str_other value
  end.

(** [Filtering._build_embed_from_dict], on the items of [data] in their
    order; the result is the fields added to the embed, in order.  The
    lengths are those of ASCII text. *)
Definition _build_embed_from_dict (str_other : json → string) (data : list (string * json))
    : list EmbedField :=
  foldl
    (λ embed '(setting, value),
       if startswith setting "_" then embed
       else
         let value :=
           match value with
           | JStr "" | JNull => "-"
           | _ => py_str str_other value
           end in
         let value :=
           if bool_decide (MAX_FIELD_SIZE < String.length value)%nat
           then take_chars MAX_FIELD_SIZE value +:+ " [...]"
           else value in
         embed ++
         [{| field_name := setting; field_value := value;
             field_inline := bool_decide (String.length value < MAX_INLINE_SIZE)%nat |}])
    [] data.

(** How a call of [_resolve_list_type_and_name] ends: with a prompt for the
    list name or the list type (and [None]), with the pair, with the
    [BadArgument] of [_get_list_by_name], or with the [IndexError] of the
    subscript [0] of an empty list. *)
Inductive resolved (V : Type) : Type :=
  | prompt_list_name (options : list string)
  | prompt_list_type
  | resolved_pair (list_type : ListType) (filter_list : FilterList V)
  | raised (e : exn)
  | raised_IndexError.
Arguments prompt_list_name {V} options.
Arguments prompt_list_type {V}.
Arguments resolved_pair {V} list_type filter_list.
Arguments raised {V} e.
Arguments raised_IndexError {V}.

(** [Filtering._resolve_list_type_and_name]. *)
Definition _resolve_list_type_and_name {V} (self : Filtering V)
    (list_type : option ListType) (list_name : option string) : resolved V :=
  match list_name with
  | None => prompt_list_name (keys (cog_filter_lists self))
  | Some list_name =>
      match _get_list_by_name self list_name with
      | Raise e => raised e
      | Ok filter_list =>
          match list_type with
          | Some list_type => resolved_pair list_type filter_list
          | None =>
              if bool_decide (1 < size (filter_lists filter_list))%nat then prompt_list_type
              else
                match keys (filter_lists filter_list) with
                | list_type :: _ => resolved_pair list_type filter_list
                | [] => raised_IndexError
                end
          end
      end
  end.

(** The key under which [_get_list_by_name] finds the object it returns:
    the object is the one the dictionary holds, so what a method does to
    it shows under this key. *)
Definition found_name {V} (self : Filtering V) (list_name : string) : string :=
  match cog_filter_lists self !! list_name with
  | Some _ => list_name
  | None => drop_last list_name
  end.

(** How a call of the command [f_add] ends: with the message that the
    filter was added, with an early return after a prompt, or with an
    exception. *)
Inductive f_add_end : Type :=
  | sent_added (id_ : Z)
  | returned_after_prompt
  | raised_exn (e : exn)
  | raised_index_error.

(** [Filtering.f_add].  The record that the API sends back for the posted
    payload is a parameter. *)
Definition f_add {V} (api_post : Z → string → option string → FilterData)
    (list_type : option ListType) (list_name : option string)
    (content : string) (description : option string) (self : Filtering V)
    : f_add_end * Filtering V * list log_record :=
  match _resolve_list_type_and_name self list_type list_name with
  | prompt_list_name _ | prompt_list_type => (returned_after_prompt, self, [])
  | raised e => (raised_exn e, self, [])
  | raised_IndexError => (raised_index_error, self, [])
  | resolved_pair list_type filter_list =>
      match list_ids filter_list !! list_type with
      | None => (raised_exn (KeyError "list_type"), self, [])
      | Some list_id =>
          let result := api_post list_id content description in
          let '(added, self', log) :=
            on_filter_list (found_name self (default "" list_name))
              (add_filter result list_type) self in
          match added with
          | Raise e => (raised_exn e, self', log)
          | Ok _ =>
              match fd_id result with
              | Some id_ => (sent_added id_, self', log)
              | None => (raised_exn (KeyError "id"), self', log)
              end
          end
      end
  end.

(** The two kinds of records in a log: the list names warned about, and the
    exceptions logged. *)
Definition warned_names (log : list log_record) : list string :=
  omap (λ r, match r with warning_no_matching_class n => Some n | _ => None end) log.

Definition logged_exceptions (log : list log_record) : list exn :=
  omap (λ r, match r with warning_exception e => Some e | _ => None end) log.

(** A cog whose list [token] has its deny list loaded, and two answers of
    the API: the record of the posted content under id 9, and a record
    whose content is a number. *)
Definition cog_loaded : Filtering bool :=
  {| cog_filter_lists := {["token" := loaded_list TokenFilter]};
     cog_subscriptions := {[MESSAGE := ["token"]]} |}.

(** The registry of the examples, with the class of [token] only, and the
    records of a fetch: two records of a name without a class around one of
    [token]. *)
Definition token_classes : gmap string (FilterListClass bool) :=
  {["token" := {| cls_filter_type := TokenFilter; cls_events := [MESSAGE] |}]}.

Definition invite_record (list_type id_ : Z) : ListData :=
  {| ld_name := "invite"; ld_list_type := list_type; ld_id := id_; ld_settings := ∅;
     ld_filters := [] |}.

Definition fetched_records : list ListData :=
  [invite_record 0 7; first_load; invite_record 1 8].

Definition api_echo (list_id : Z) (content : string) (description : option string)
    : FilterData :=
  filter_record (Some 9) (Some (JStr content)).

Definition api_number (list_id : Z) (content : string) (description : option string)
    : FilterData :=
  filter_record (Some 9) (Some (JInt 0)).

(** * Properties *)

(** ** The evaluation of a group of validations *)

Lemma evaluate_elem_of (self : gmap string ValidationEntry) ctx name :
  (name ∈ (evaluate self ctx).1 ↔ ∃ v, self !! name = Some v ∧ triggers_on v ctx = true) ∧
  (name ∈ (evaluate self ctx).2 ↔ ∃ v, self !! name = Some v ∧ triggers_on v ctx = false).
Proof.
  unfold evaluate.
  apply (map_fold_weak_ind (λ acc (m : gmap string ValidationEntry),
    (name ∈ acc.1 ↔ ∃ v, m !! name = Some v ∧ triggers_on v ctx = true) ∧
    (name ∈ acc.2 ↔ ∃ v, m !! name = Some v ∧ triggers_on v ctx = false))).
  - simpl. split; (split; [set_solver | intros (v & Hv & _); by rewrite lookup_empty in Hv]).
  - intros i x m [passed failed] Hi [IHp IHf]. simpl in *.
    destruct (triggers_on x ctx) eqn:Hx; simpl; split.
    + rewrite elem_of_union, elem_of_singleton, IHp. split.
      * intros [-> | (v & Hv & Ht)].
        -- exists x. by rewrite lookup_insert_eq.
        -- exists v. split; [|done]. rewrite lookup_insert_ne; [done | congruence].
      * intros (v & Hv & Ht). destruct (decide (i = name)) as [-> | Hne]; [by left |].
        right. exists v. by rewrite lookup_insert_ne in Hv.
    + rewrite IHf. split.
      * intros (v & Hv & Ht). exists v. split; [|done].
        rewrite lookup_insert_ne; [done | congruence].
      * intros (v & Hv & Ht). destruct (decide (i = name)) as [-> | Hne].
        -- rewrite lookup_insert_eq in Hv. congruence.
        -- exists v. by rewrite lookup_insert_ne in Hv.
    + rewrite IHp. split.
      * intros (v & Hv & Ht). exists v. split; [|done].
        rewrite lookup_insert_ne; [done | congruence].
      * intros (v & Hv & Ht). destruct (decide (i = name)) as [-> | Hne].
        -- rewrite lookup_insert_eq in Hv. congruence.
        -- exists v. by rewrite lookup_insert_ne in Hv.
    + rewrite elem_of_union, elem_of_singleton, IHf. split.
      * intros [-> | (v & Hv & Ht)].
        -- exists x. by rewrite lookup_insert_eq.
        -- exists v. split; [|done]. rewrite lookup_insert_ne; [done | congruence].
      * intros (v & Hv & Ht). destruct (decide (i = name)) as [-> | Hne]; [by left |].
        right. exists v. by rewrite lookup_insert_ne in Hv.
Qed.

(** Every setting of the group lands in exactly one of the two sets. *)
Lemma evaluate_partition (self : gmap string ValidationEntry) ctx :
  (evaluate self ctx).1 ∪ (evaluate self ctx).2 = dom self ∧
  (evaluate self ctx).1 ## (evaluate self ctx).2.
Proof.
  split.
  - apply set_eq. intros name.
    rewrite elem_of_union, elem_of_dom.
    destruct (evaluate_elem_of self ctx name) as [-> ->]. split.
    + intros [(v & Hv & _) | (v & Hv & _)]; eauto.
    + intros [v Hv]. destruct (triggers_on v ctx) eqn:Ht; eauto.
  - intros name Hp Hf.
    destruct (evaluate_elem_of self ctx name) as [H1 H2].
    apply H1 in Hp as (v & Hv & Ht). apply H2 in Hf as (v' & Hv' & Ht'). congruence.
Qed.

Lemma evaluate_empty ctx : evaluate ∅ ctx = (∅, ∅).
Proof. unfold evaluate. by rewrite map_fold_empty. Qed.

(** A group that is not empty and has no failure has a passed setting. *)
Lemma evaluate_passed_nonempty (self : gmap string ValidationEntry) ctx :
  self ≠ ∅ → (evaluate self ctx).2 = ∅ → (evaluate self ctx).1 ≠ ∅.
Proof.
  intros Hne Hf Hp.
  destruct (evaluate_partition self ctx) as [Hdom _].
  rewrite Hf, Hp in Hdom. apply Hne, dom_empty_inv_L. set_solver.
Qed.

(** ** The relevance algorithm *)

Lemma foldl_ext_all {A B} (f g : A → B → A) (l : list B) (a : A) :
  (∀ a x, f a x = g a x) → foldl f a l = foldl g a l.
Proof. intros Hfg. revert a. induction l as [|x l IH]; intros a; simpl; [done|]. by rewrite Hfg, IH. Qed.

Lemma elem_of_foldl_select {A} (keep : A → bool) (l acc : list A) (x : A) :
  x ∈ foldl (λ acc y, if keep y then acc ++ [y] else acc) acc l ↔
  x ∈ acc ∨ (x ∈ l ∧ keep x = true).
Proof.
  revert acc. induction l as [|y l IH]; intros acc; simpl.
  - rewrite elem_of_nil. tauto.
  - rewrite IH, elem_of_cons. destruct (keep y) eqn:Hy.
    + rewrite elem_of_app, list_elem_of_singleton. split.
      * intros [[Hx | ->] | [Hx Hk]]; eauto.
      * intros [Hx | [[-> | Hx] Hk]]; eauto.
    + split.
      * intros [Hx | [Hx Hk]]; eauto.
      * intros [Hx | [[-> | Hx] Hk]]; [eauto | congruence | eauto].
Qed.

Section relevance.
Context {V : Type}.
Implicit Types (f : Filter V) (filters : gmap Z (Filter V)).
Implicit Types (defaults : gmap string ValidationEntry).

(** What the loop of [filter_list_result] lets through. *)
Lemma elem_of_filter_list_result ctx filters defaults f :
  f ∈ filter_list_result ctx filters defaults ↔
  f ∈ values filters ∧ triggered_on f ctx = true ∧
  ((truthy_map (f_validations f) = false ∧ (evaluate defaults ctx).2 = ∅) ∨
   (∃ v, f_validations f = Some v ∧ v ≠ ∅ ∧ (evaluate v ctx).2 = ∅ ∧
         (evaluate defaults ctx).2 ⊂ (evaluate v ctx).1)).
Proof.
  unfold filter_list_result.
  destruct (evaluate defaults ctx) as [passed_by_default failed_by_default]. simpl.
  erewrite (foldl_ext_all _
    (λ acc y,
       if (triggered_on y ctx &&
           match f_validations y with
           | Some v =>
               if bool_decide (v ≠ ∅)
               then bool_decide ((evaluate v ctx).2 = ∅) &&
                    bool_decide (failed_by_default ⊂ (evaluate v ctx).1)
               else bool_decide (failed_by_default = ∅)
           | None => bool_decide (failed_by_default = ∅)
           end)
       then acc ++ [y] else acc)).
  - rewrite elem_of_foldl_select, elem_of_nil, andb_true_iff.
    split.
    + intros [[] | (Hin & Ht & Hk)]. do 2 (split; [done|]).
      destruct (f_validations f) as [v|] eqn:Hv; simpl.
      * case_bool_decide as Hne.
        -- apply andb_true_iff in Hk as [H1 H2].
           apply bool_decide_eq_true in H1, H2. right. by exists v.
        -- apply bool_decide_eq_true in Hk. by left.
      * apply bool_decide_eq_true in Hk. by left.
    + intros (Hin & Ht & Hk). right. do 2 (split; [done|]).
      destruct Hk as [[Hno Hd] | (v & Hv & Hne & Hf & Hsub)].
      * destruct (f_validations f) as [v|]; simpl in *.
        -- rewrite Hno. by apply bool_decide_eq_true.
        -- by apply bool_decide_eq_true.
      * rewrite Hv. rewrite (bool_decide_eq_true_2 _ Hne).
        apply andb_true_iff. split; by apply bool_decide_eq_true.
  - intros acc y.
    destruct (triggered_on y ctx) eqn:Ht; simpl;
      destruct (f_validations y) as [v|]; simpl;
      repeat case_bool_decide; simpl;
      try destruct (evaluate v ctx) as [passed failed] eqn:He; simpl in *;
      repeat case_bool_decide; simpl; try done; try congruence.
Qed.
End relevance.

Section relevance_claims.
Context {V : Type}.
Implicit Types (f : Filter V) (filters : gmap Z (Filter V)).
Implicit Types (defaults : gmap string ValidationEntry).

(** The loop asks for a strict inclusion: a filter whose passed overrides
    are exactly the failed defaults is left out. *)
Lemma filter_list_result_equal_sets ctx filters defaults f v :
  f_validations f = Some v → v ≠ ∅ →
  (evaluate defaults ctx).2 = (evaluate v ctx).1 →
  f ∉ filter_list_result ctx filters defaults.
Proof.
  intros Hv Hne Heq Hin.
  apply elem_of_filter_list_result in Hin as (_ & _ & [[Hno _] | (v' & Hv' & _ & _ & Hsub)]).
  - rewrite Hv in Hno. simpl in Hno. by apply bool_decide_eq_false in Hno.
  - assert (v' = v) as -> by congruence. rewrite Heq in Hsub.
    destruct Hsub as [_ Hsub]. by apply Hsub.
Qed.

(** On the group of the specification, overrides that are not empty and
    have no failure have a passed setting: when no default fails either,
    the strict test of the loop holds and the matcher alone decides. *)
Lemma filter_list_result_overrides_pass_trivially ctx filters defaults f v :
  f_validations f = Some v → v ≠ ∅ →
  (evaluate defaults ctx).2 = ∅ → (evaluate v ctx).2 = ∅ →
  (evaluate defaults ctx).2 ⊂ (evaluate v ctx).1 ∧
  (f ∈ filter_list_result ctx filters defaults ↔
   f ∈ values filters ∧ triggered_on f ctx = true).
Proof.
  intros Hv Hne Hd Hf.
  assert ((evaluate defaults ctx).2 ⊂ (evaluate v ctx).1) as Hsub.
  { rewrite Hd. pose proof (evaluate_passed_nonempty v ctx Hne Hf) as Hp.
    split; [set_solver|]. intros Hsub. apply Hp. set_solver. }
  split; [done|].
  rewrite elem_of_filter_list_result. split.
  - intros (Hin & Ht & _). done.
  - intros [Hin Ht]. do 2 (split; [done|]). right. by exists v.
Qed.

(** C5: a filter without validation overrides is returned iff no default
    validation failed on the context and its matcher triggers; with an
    empty group of defaults nothing fails and the matcher alone decides. *)
Theorem filter_list_result_without_overrides ctx filters defaults f :
  truthy_map (f_validations f) = false →
  (f ∈ filter_list_result ctx filters defaults ↔
   f ∈ values filters ∧ (evaluate defaults ctx).2 = ∅ ∧ triggered_on f ctx = true) ∧
  (defaults = ∅ →
   (evaluate defaults ctx).2 = ∅ ∧
   (f ∈ filter_list_result ctx filters defaults ↔
    f ∈ values filters ∧ triggered_on f ctx = true)).
Proof.
  intros Hno.
  assert (f ∈ filter_list_result ctx filters defaults ↔
          f ∈ values filters ∧ (evaluate defaults ctx).2 = ∅ ∧ triggered_on f ctx = true)
    as Hiff.
  { rewrite elem_of_filter_list_result. split.
    - intros (Hin & Ht & [[_ Hd] | (v & Hv & Hne & _)]); [done|].
      rewrite Hv in Hno. simpl in Hno. by apply bool_decide_eq_false in Hno.
    - intros (Hin & Hd & Ht). do 2 (split; [done|]). by left. }
  split; [done|].
  intros ->. rewrite Hiff, evaluate_empty. simpl. tauto.
Qed.
End relevance_claims.

(** [filter_list_result] is the loop over the interface, at the group of
    the specification. *)
Lemma filter_list_result_instance {V : Type} ctx (filters : gmap Z (Filter V))
    (defaults : gmap string ValidationEntry) :
  filter_list_result ctx filters defaults =
  filter_list_result_of f_validations triggered_on (λ group, bool_decide (group ≠ ∅))
    evaluate ctx filters defaults.
Proof. reflexivity. Qed.

Section relevance_interface.
Context {F G : Type}.
Variable validations : F → option G.
Variable triggers : F → FilterContext → bool.
Variable bool_of : G → bool.
Variable evaluate_of : G → FilterContext → gset string * gset string.
Implicit Types (f : F) (filters : gmap Z F) (defaults group : G).

(** What the loop lets through, whatever the settings class is. *)
Lemma elem_of_filter_list_result_of ctx filters defaults f :
  f ∈ filter_list_result_of validations triggers bool_of evaluate_of ctx filters defaults ↔
  f ∈ values filters ∧ triggers f ctx = true ∧
  ((from_option bool_of false (validations f) = false ∧ (evaluate_of defaults ctx).2 = ∅) ∨
   (∃ group, validations f = Some group ∧ bool_of group = true ∧
             (evaluate_of group ctx).2 = ∅ ∧
             (evaluate_of defaults ctx).2 ⊂ (evaluate_of group ctx).1)).
Proof.
  unfold filter_list_result_of.
  destruct (evaluate_of defaults ctx) as [passed_by_default failed_by_default]. simpl.
  erewrite (foldl_ext_all _
    (λ acc y,
       if (triggers y ctx &&
           match validations y with
           | Some group =>
               if bool_of group
               then bool_decide ((evaluate_of group ctx).2 = ∅) &&
                    bool_decide (failed_by_default ⊂ (evaluate_of group ctx).1)
               else bool_decide (failed_by_default = ∅)
           | None => bool_decide (failed_by_default = ∅)
           end)
       then acc ++ [y] else acc)).
  - rewrite elem_of_foldl_select, elem_of_nil, andb_true_iff.
    split.
    + intros [[] | (Hin & Ht & Hk)]. do 2 (split; [done|]).
      destruct (validations f) as [group|] eqn:Hv; simpl.
      * destruct (bool_of group) eqn:Hb.
        -- apply andb_true_iff in Hk as [H1 H2].
           apply bool_decide_eq_true in H1, H2. right. by exists group.
        -- apply bool_decide_eq_true in Hk. by left.
      * apply bool_decide_eq_true in Hk. by left.
    + intros (Hin & Ht & Hk). right. do 2 (split; [done|]).
      destruct Hk as [[Hno Hd] | (group & Hv & Hb & Hf & Hsub)].
      * destruct (validations f) as [group|]; simpl in *.
        -- rewrite Hno. by apply bool_decide_eq_true.
        -- by apply bool_decide_eq_true.
      * rewrite Hv, Hb.
        apply andb_true_iff. split; by apply bool_decide_eq_true.
  - intros acc y.
    destruct (triggers y ctx) eqn:Ht; simpl;
      destruct (validations y) as [group|]; simpl;
      try destruct (bool_of group) eqn:Hb; simpl;
      repeat case_bool_decide; simpl;
      try destruct (evaluate_of group ctx) as [passed failed] eqn:He; simpl in *;
      repeat case_bool_decide; simpl; try done; try congruence.
Qed.

End relevance_interface.

(** C1: a filter whose only override passes on exactly the setting that the
    defaults fail has no failed override and every failed default among its
    passed overrides, and its matcher triggers; the loop leaves it out. *)
Theorem filter_list_result_exact_override_left_out :
  (evaluate defaults_channel_fails ctx_general).2 = {["channel_scope"]} ∧
  evaluate overrides_channel_passes ctx_general = ({["channel_scope"]}, ∅) ∧
  triggered_on (filter_with 7 (Some overrides_channel_passes)) ctx_general = true ∧
  filter_list_result ctx_general
    {[7 := filter_with 7 (Some overrides_channel_passes)]} defaults_channel_fails = [].
Proof. vm_compute. repeat split; reflexivity. Qed.

Lemma filter_list_result_overrides_pass_trivially_witness :
  let f := filter_with 3 (Some overrides_channel_passes) in
  (evaluate ∅ ctx_general).2 ⊂ (evaluate overrides_channel_passes ctx_general).1 ∧
  (f ∈ filter_list_result ctx_general {[3 := f]} ∅ ↔
   f ∈ values ({[3 := f]} : gmap Z (Filter bool)) ∧ triggered_on f ctx_general = true).
Proof.
  apply (filter_list_result_overrides_pass_trivially ctx_general
           {[3 := filter_with 3 (Some overrides_channel_passes)]} ∅
           (filter_with 3 (Some overrides_channel_passes)) overrides_channel_passes).
  - reflexivity.
  - apply map_non_empty_singleton.
  - reflexivity.
  - reflexivity.
Defined.


(** The same at an input: no default, a filter whose matcher triggers and
    whose group of overrides is true and evaluates to two empty sets; the
    loop returns nothing. *)
Lemma filter_list_result_of_empty_passed :
  evaluate ∅ ctx_general = (∅, ∅) ∧
  triggered_on (filter_with 3 (Some ∅)) ctx_general = true ∧
  filter_list_result_of f_validations triggered_on plain_object_bool evaluate
    ctx_general {[3 := filter_with 3 (Some ∅)]} ∅ = [].
Proof. vm_compute. repeat split; reflexivity. Qed.

Lemma filter_list_result_without_overrides_witness :
  let f := filter_with 4 None in
  (f ∈ filter_list_result ctx_general {[4 := f]} defaults_channel_fails ↔
   f ∈ values ({[4 := f]} : gmap Z (Filter bool)) ∧
   (evaluate defaults_channel_fails ctx_general).2 = ∅ ∧ triggered_on f ctx_general = true) ∧
  (defaults_channel_fails = ∅ →
   (evaluate defaults_channel_fails ctx_general).2 = ∅ ∧
   (f ∈ filter_list_result ctx_general {[4 := f]} defaults_channel_fails ↔
    f ∈ values ({[4 := f]} : gmap Z (Filter bool)) ∧ triggered_on f ctx_general = true)).
Proof.
  apply (filter_list_result_without_overrides ctx_general {[4 := filter_with 4 None]}
           defaults_channel_fails (filter_with 4 None)).
  reflexivity.
Defined.

(** ** The merge of action settings *)

Section merge.
Context {V : Type} `{ActionEntry V}.
Implicit Types (A B C : gmap string V).

Lemma lookup_ActionSettings_or A B name :
  (A ⊕ B) !! name = union_with (λ x y, Some (entry_or x y)) (A !! name) (B !! name).
Proof. unfold ActionSettings_or. apply lookup_union_with. Qed.

(** The empty group is a unit on both sides, whatever the entries are. *)
Lemma ActionSettings_or_empty_r A : A ⊕ ∅ = A.
Proof.
  apply map_eq. intros name.
  rewrite lookup_ActionSettings_or, lookup_empty. by destruct (A !! name).
Qed.

Lemma ActionSettings_or_empty_l A : ∅ ⊕ A = A.
Proof.
  apply map_eq. intros name.
  rewrite lookup_ActionSettings_or, lookup_empty. by destruct (A !! name).
Qed.

(** [reduce] from the first element is the fold from the empty group. *)
Lemma reduce_ActionSettings_or l :
  l ≠ [] → reduce ActionSettings_or l = Some (foldl ActionSettings_or ∅ l).
Proof. destruct l as [|x l]; [done|]. intros _. simpl. by rewrite ActionSettings_or_empty_l. Qed.

(** Two groups that define the same single name merge by the rule of the
    entry type. *)
Lemma ActionSettings_or_singleton name (x y : V) :
  ({[name := x]} : gmap string V) ⊕ {[name := y]} = {[name := entry_or x y]}.
Proof.
  apply map_eq. intros other. rewrite lookup_ActionSettings_or.
  destruct (decide (name = other)) as [<- | Hne].
  - by rewrite !lookup_singleton_eq.
  - by rewrite !lookup_singleton_ne.
Qed.

(** The merge is commutative when the rule of the entry type is, and
    associative when the rule is. *)
Lemma ActionSettings_or_comm A B : Comm (=) (@entry_or V _) → A ⊕ B = B ⊕ A.
Proof.
  intros Hcomm. apply map_eq. intros name. rewrite !lookup_ActionSettings_or.
  destruct (A !! name), (B !! name); simpl; try done.
  by rewrite (comm entry_or).
Qed.

Lemma ActionSettings_or_assoc A B C : Assoc (=) (@entry_or V _) → (A ⊕ B) ⊕ C = A ⊕ (B ⊕ C).
Proof.
  intros Hassoc. apply map_eq. intros name. rewrite !lookup_ActionSettings_or.
  destruct (A !! name), (B !! name), (C !! name); simpl; try done.
  by rewrite (assoc entry_or).
Qed.

(** And the other way round: the laws of the merge are laws of the rule. *)
Lemma entry_or_comm_of_merge :
  (∀ A B : gmap string V, A ⊕ B = B ⊕ A) → Comm (=) (@entry_or V _).
Proof.
  intros Hcomm x y.
  pose proof (Hcomm {["" := x]} {["" := y]}) as Heq.
  rewrite !ActionSettings_or_singleton in Heq.
  by apply (inj (singletonM "")) in Heq.
Qed.

Lemma entry_or_assoc_of_merge :
  (∀ A B C : gmap string V, (A ⊕ B) ⊕ C = A ⊕ (B ⊕ C)) → Assoc (=) (@entry_or V _).
Proof.
  intros Hassoc x y z.
  pose proof (Hassoc {["" := x]} {["" := y]} {["" := z]}) as Heq.
  rewrite !ActionSettings_or_singleton in Heq.
  by apply (inj (singletonM "")) in Heq.
Qed.

Lemma foldl_ActionSettings_or_perm (l l' : list (gmap string V)) :
  Assoc (=) (@entry_or V _) → Comm (=) (@entry_or V _) →
  l ≡ₚ l' → ∀ A, foldl ActionSettings_or A l = foldl ActionSettings_or A l'.
Proof.
  intros Hassoc Hcomm.
  induction 1 as [|x l l' _ IH|x y l|l l' l'' _ IH1 _ IH2]; intros A; simpl.
  - done.
  - apply IH.
  - f_equal. rewrite !ActionSettings_or_assoc by done. f_equal.
    by apply ActionSettings_or_comm.
  - by rewrite IH1, IH2.
Qed.

Lemma reduce_ActionSettings_or_perm (l l' : list (gmap string V)) :
  Assoc (=) (@entry_or V _) → Comm (=) (@entry_or V _) →
  l ≡ₚ l' → reduce ActionSettings_or l = reduce ActionSettings_or l'.
Proof.
  intros Hassoc Hcomm Hp. destruct l as [|x l].
  - apply Permutation_nil_l in Hp. by subst.
  - assert (l' ≠ []) as Hne.
    { intros ->. by apply Permutation_nil_r in Hp. }
    rewrite (reduce_ActionSettings_or l' Hne), (reduce_ActionSettings_or (x :: l)); [|done].
    f_equal. by apply foldl_ActionSettings_or_perm.
Qed.
End merge.


(** The rules of the three entry types: flags and durations obey both
    laws, the concatenation of messages is associative only. *)
Lemma flag_entry_laws : Assoc (=) (@entry_or bool _) ∧ Comm (=) (@entry_or bool _).
Proof. split; [intros x y z; apply orb_assoc | intros x y; apply orb_comm]. Qed.

Lemma duration_entry_laws : Assoc (=) (@entry_or N _) ∧ Comm (=) (@entry_or N _).
Proof.
  split; unfold entry_or, duration_entry;
    [intros x y z; apply N.max_assoc | intros x y; apply N.max_comm].
Qed.

Lemma message_entry_assoc : Assoc (=) (@entry_or string _).
Proof.
  intros x y z. unfold entry_or, message_entry.
  induction x as [|c x IH]; [done|].
  change (String c (x +:+ (y +:+ z)) = String c ((x +:+ y) +:+ z)). by rewrite IH.
Qed.



(** ** The dispatcher: [_resolve_action] *)

Lemma foldl_ext_in {A B} (f g : A → B → A) (l : list B) (a : A) :
  (∀ a x, x ∈ l → f a x = g a x) → foldl f a l = foldl g a l.
Proof.
  revert a. induction l as [|x l IH]; intros a Hfg; simpl; [done|].
  rewrite Hfg by apply list_elem_of_here.
  apply IH. intros a' y Hy. apply Hfg. by apply list_elem_of_further.
Qed.

Section resolve.
Context {V : Type} `{ActionEntry V}.
Variable actions_for : string → FilterContext → option (gmap string V) * option string.
Variable ctx : FilterContext.

(** The two accumulators of the loop, each on its own. *)
Let kept (filter_list : string) : option (gmap string V) :=
  if truthy_map (actions_for filter_list ctx).1 then (actions_for filter_list ctx).1 else None.

Let noted (messages : gmap string string) (filter_list : string) : gmap string string :=
  if truthy_str (actions_for filter_list ctx).2
  then <[filter_list := default "" (actions_for filter_list ctx).2]> messages
  else messages.

Lemma resolve_loop (l : list string) actions messages :
  foldl
    (λ '(actions, messages) filter_list,
       let '(list_actions, list_message) := actions_for filter_list ctx in
       let actions :=
         match list_actions with
         | Some a => if bool_decide (a ≠ ∅) then actions ++ [a] else actions
         | None => actions
         end in
       let messages :=
         match list_message with
         | Some msg => if bool_decide (msg ≠ "") then <[filter_list := msg]> messages else messages
         | None => messages
         end in
       (actions, messages))
    (actions, messages) l
  = (actions ++ omap kept l, foldl noted messages l).
Proof.
  revert actions messages. induction l as [|x l IH]; intros actions messages; simpl.
  - by rewrite app_nil_r.
  - unfold kept at 1, noted at 2.
    destruct (actions_for x ctx) as [[a|] [msg|]]; simpl;
      repeat case_bool_decide; simpl; rewrite IH; try done;
      by rewrite <- app_assoc.
Qed.

Lemma lookup_foldl_noted (l : list string) messages filter_list :
  foldl noted messages l !! filter_list =
  if bool_decide (filter_list ∈ l) && truthy_str (actions_for filter_list ctx).2
  then (actions_for filter_list ctx).2
  else messages !! filter_list.
Proof.
  revert messages. induction l as [|x l IH]; intros messages; simpl; [done|].
  rewrite IH. unfold noted at 1.
  destruct (decide (filter_list = x)) as [-> | Hne].
  - rewrite (bool_decide_eq_true_2 (x ∈ x :: l)) by apply list_elem_of_here. simpl.
    destruct (truthy_str (actions_for x ctx).2) eqn:Ht.
    + rewrite andb_true_r. case_bool_decide; simpl; [done|].
      rewrite lookup_insert_eq.
      destruct (actions_for x ctx).2; [done | discriminate Ht].
    + by rewrite andb_false_r.
  - assert (bool_decide (filter_list ∈ x :: l) = bool_decide (filter_list ∈ l)) as ->.
    { apply bool_decide_ext. rewrite elem_of_cons. tauto. }
    destruct (bool_decide (filter_list ∈ l) && truthy_str (actions_for filter_list ctx).2);
      [done|].
    destruct (truthy_str (actions_for x ctx).2); [|done].
    by rewrite lookup_insert_ne.
Qed.
End resolve.

Lemma omap_fmap_list {A B C} (g : A → B) (f : B → option C) (l : list A) :
  omap f (g <$> l) = omap (λ x, f (g x)) l.
Proof.
  induction l as [|x l IH]; [done|].
  rewrite fmap_cons. cbn [omap list_omap]. destruct (f (g x)); by rewrite ?IH.
Qed.

Lemma omap_ext_in {A B} (f g : A → option B) (l : list A) :
  (∀ x, x ∈ l → f x = g x) → omap f l = omap g l.
Proof.
  induction l as [|x l IH]; intros Hfg; [done|].
  cbn [omap list_omap]. rewrite (Hfg x) by apply list_elem_of_here.
  rewrite IH; [done|]. intros y Hy. apply Hfg. by apply list_elem_of_further.
Qed.

(** [_resolve_action] answers from the lists subscribed to the event of the
    context and from no other list; its first component is the fold of the
    action settings that these lists returned and that the truth test of
    the loop lets through, [None] if there is no such; its second component
    holds, under each list, exactly the message that list returned if it is
    not empty. *)
Lemma resolve_action_spec {V : Type} `{ActionEntry V}
    (actions_for : string → FilterContext → option (gmap string V) * option string)
    (self : Filtering V) (ctx : FilterContext) :
  let subscribed := default [] (cog_subscriptions self !! ctx_event ctx) in
  let answers := (λ filter_list, actions_for filter_list ctx) <$> subscribed in
  let result := (_resolve_action actions_for self ctx).1 in
  result.1 =
    reduce ActionSettings_or
      (omap (λ answer, if truthy_map answer.1 then answer.1 else None) answers) ∧
  (∀ filter_list msg,
     result.2 !! filter_list = Some msg ↔
     filter_list ∈ subscribed ∧ (actions_for filter_list ctx).2 = Some msg ∧ msg ≠ "") ∧
  (∀ actions_for',
     Forall (λ filter_list, actions_for' filter_list ctx = actions_for filter_list ctx)
       subscribed →
     _resolve_action actions_for' self ctx = _resolve_action actions_for self ctx).
Proof.
  intros subscribed answers result.
  assert (∀ af, _resolve_action af self ctx =
    ((reduce ActionSettings_or
        (omap (λ fl, if truthy_map (af fl ctx).1 then (af fl ctx).1 else None) subscribed),
      foldl (λ messages fl,
               if truthy_str (af fl ctx).2
               then <[fl := default "" (af fl ctx).2]> messages else messages) ∅ subscribed),
     {| cog_filter_lists := cog_filter_lists self;
        cog_subscriptions := (defaultdict_getitem (cog_subscriptions self) (ctx_event ctx)).2 |}))
    as Hform.
  { intros af. unfold _resolve_action, defaultdict_getitem, subscribed.
    destruct (cog_subscriptions self !! ctx_event ctx) as [l|]; simpl.
    - rewrite resolve_loop. simpl. by case_bool_decide as Hl; [|rewrite Hl].
    - done. }
  subst result. rewrite Hform. simpl. split; [|split].
  - unfold answers. by rewrite omap_fmap_list.
  - intros filter_list msg. rewrite lookup_foldl_noted, lookup_empty.
    destruct (actions_for filter_list ctx).2 as [m|]; simpl.
    + repeat case_bool_decide; simpl; split; try done; try naive_solver.
    + rewrite andb_false_r. naive_solver.
  - intros af Hall. rewrite (Hform af). rewrite Forall_forall in Hall. f_equal. f_equal.
    + f_equal. apply omap_ext_in. intros fl Hfl. by rewrite Hall.
    + apply foldl_ext_in. intros m fl Hfl. by rewrite Hall.
Qed.

Lemma reduce_None {A} (f : A → A → A) (l : list A) : reduce f l = None ↔ l = [].
Proof. by destruct l. Qed.

Lemma omap_nil_iff {A B} (f : A → option B) (l : list A) :
  omap f l = [] ↔ ∀ x, x ∈ l → f x = None.
Proof.
  induction l as [|x l IH]; cbn [omap list_omap].
  - split; [|done]. intros _ y Hy. by apply elem_of_nil in Hy.
  - destruct (f x) eqn:Hx.
    + split; [done|]. intros Hall. specialize (Hall x (list_elem_of_here _ _)). congruence.
    + rewrite IH. split.
      * intros Hall y [-> | Hy]%elem_of_cons; [done | by apply Hall].
      * intros Hall y Hy. apply Hall. by apply list_elem_of_further.
Qed.



(** ** The dispatcher: [subscribe] *)

Section subscriptions.
Context {V : Type}.
Implicit Types (self : Filtering V) (events : list Event).

Lemma subscribe_cons filter_list event events self :
  subscribe filter_list (event :: events) self =
  subscribe filter_list events (subscribe filter_list [event] self).
Proof. reflexivity. Qed.

Lemma subscribe_filter_lists filter_list events self :
  cog_filter_lists (subscribe filter_list events self) = cog_filter_lists self.
Proof.
  revert self. induction events as [|event events IH]; intros self; [done|].
  rewrite subscribe_cons, IH. unfold subscribe. simpl.
  by destruct (defaultdict_getitem (cog_subscriptions self) event).
Qed.

(** One event: the list of the event grows by the filter list if it is
    not in it, and no other list changes. *)
Lemma lookup_subscribe_one filter_list event self e :
  default [] (cog_subscriptions (subscribe filter_list [event] self) !! e) =
  if bool_decide (e = event ∧ filter_list ∉ default [] (cog_subscriptions self !! e))
  then default [] (cog_subscriptions self !! e) ++ [filter_list]
  else default [] (cog_subscriptions self !! e).
Proof.
  unfold subscribe, defaultdict_getitem. simpl.
  destruct (cog_subscriptions self !! event) as [l|] eqn:Hl; simpl.
  - destruct (decide (filter_list ∈ l)) as [Hin | Hnin].
    + rewrite (bool_decide_eq_false_2 (filter_list ∉ l)) by tauto. simpl.
      case_bool_decide as Hd; [|done].
      destruct Hd as [-> Hn]. rewrite Hl in Hn. simpl in Hn. tauto.
    + rewrite (bool_decide_eq_true_2 (filter_list ∉ l)) by done. simpl.
      destruct (decide (e = event)) as [-> | Hne].
      * rewrite lookup_insert_eq, Hl. simpl. by rewrite bool_decide_eq_true_2.
      * rewrite lookup_insert_ne by done. by rewrite bool_decide_eq_false_2 by tauto.
  - destruct (decide (e = event)) as [-> | Hne].
    + rewrite lookup_insert_eq, Hl. simpl.
      rewrite bool_decide_eq_true_2; [done|]. split; [done | apply not_elem_of_nil].
    + rewrite !lookup_insert_ne by done. by rewrite bool_decide_eq_false_2 by tauto.
Qed.

Lemma lookup_subscribe filter_list events self e :
  default [] (cog_subscriptions (subscribe filter_list events self) !! e) =
  if bool_decide (e ∈ events ∧ filter_list ∉ default [] (cog_subscriptions self !! e))
  then default [] (cog_subscriptions self !! e) ++ [filter_list]
  else default [] (cog_subscriptions self !! e).
Proof.
  revert self. induction events as [|event events IH]; intros self.
  - rewrite bool_decide_eq_false_2; [done|]. intros [Hin _]. by apply elem_of_nil in Hin.
  - rewrite subscribe_cons, IH, lookup_subscribe_one.
    set (l := default [] (cog_subscriptions self !! e)).
    destruct (decide (filter_list ∈ l)) as [Hin | Hnin].
    + rewrite (bool_decide_eq_false_2 (e = event ∧ _)) by tauto.
      rewrite (bool_decide_eq_false_2 (e ∈ events ∧ _)) by tauto.
      by rewrite bool_decide_eq_false_2 by tauto.
    + destruct (decide (e = event)) as [-> | Hne].
      * rewrite (bool_decide_eq_true_2 (event = event ∧ _)) by done.
        rewrite (bool_decide_eq_false_2 (event ∈ events ∧ _)).
        -- rewrite bool_decide_eq_true_2; [done|]. split; [apply list_elem_of_here | done].
        -- intros [_ Hn]. apply Hn, elem_of_app. right. apply list_elem_of_here.
      * rewrite (bool_decide_eq_false_2 (e = event ∧ _)) by tauto.
        fold l.
        assert (bool_decide (e ∈ events ∧ filter_list ∉ l) =
                bool_decide (e ∈ event :: events ∧ filter_list ∉ l)) as ->; [|done].
        apply bool_decide_ext. rewrite elem_of_cons. tauto.
Qed.

(** A list that is in every list it is subscribed to: nothing changes. *)
Lemma subscribe_present filter_list events self :
  (∀ e, e ∈ events → filter_list ∈ default [] (cog_subscriptions self !! e)) →
  subscribe filter_list events self = self.
Proof.
  revert self. induction events as [|event events IH]; intros self Hall; [done|].
  rewrite subscribe_cons.
  assert (subscribe filter_list [event] self = self) as ->.
  { unfold subscribe, defaultdict_getitem. simpl.
    pose proof (Hall event (list_elem_of_here _ _)) as Hin.
    destruct (cog_subscriptions self !! event) as [l|]; simpl in *.
    - rewrite bool_decide_eq_false_2 by tauto. by destruct self.
    - by apply elem_of_nil in Hin. }
  apply IH. intros e He. apply Hall. by apply list_elem_of_further.
Qed.

Lemma subscribe_idempotent filter_list events self :
  subscribe filter_list events (subscribe filter_list events self) =
  subscribe filter_list events self.
Proof.
  apply subscribe_present. intros e He. rewrite lookup_subscribe.
  case_bool_decide as Hd.
  - apply elem_of_app. right. apply list_elem_of_here.
  - destruct (decide (filter_list ∈ default [] (cog_subscriptions self !! e))); tauto.
Qed.

Lemma subscribe_NoDup filter_list events self e :
  NoDup (default [] (cog_subscriptions self !! e)) →
  NoDup (default [] (cog_subscriptions (subscribe filter_list events self) !! e)).
Proof.
  intros Hnd. rewrite lookup_subscribe. case_bool_decide as Hd; [|done].
  apply NoDup_app. split; [done|]. split; [|apply NoDup_singleton].
  intros x Hx Hx'. apply list_elem_of_singleton in Hx'. subst. tauto.
Qed.

Lemma subscribe_prefix filter_list events self e :
  default [] (cog_subscriptions self !! e) `prefix_of`
  default [] (cog_subscriptions (subscribe filter_list events self) !! e).
Proof.
  rewrite lookup_subscribe. case_bool_decide; [|done]. by apply prefix_app_r.
Qed.

(** Every state that [subscribe] builds from the fresh cog. *)
Lemma subscribe_calls_NoDup (calls : list (string * list Event)) self e :
  NoDup (default [] (cog_subscriptions self !! e)) →
  NoDup (default []
           (cog_subscriptions (foldl (λ cog call, subscribe call.1 call.2 cog) self calls)
              !! e)).
Proof.
  revert self. induction calls as [|[fl evs] calls IH]; intros self Hnd; [done|].
  simpl. apply IH. by apply subscribe_NoDup.
Qed.
End subscriptions.

(** C10: in every state that calls of [subscribe] build from the fresh cog
    the list of an event holds a filter list at most once; a call appends
    the filter list to the list of each given event that does not hold it
    and changes nothing else, so the lists before are prefixes of the lists
    after, and the same call once more changes nothing. *)
Theorem subscribe_appends_once {V : Type} (calls : list (string * list Event))
    (self : Filtering V) (filter_list : string) (events : list Event) (e : Event) :
  let subscribed := default [] (cog_subscriptions self !! e) in
  let subscribed' := default [] (cog_subscriptions (subscribe filter_list events self) !! e) in
  NoDup (default []
           (cog_subscriptions
              (foldl (λ cog call, subscribe call.1 call.2 cog) (@Filtering_init V) calls)
              !! e)) ∧
  subscribed' =
    (if bool_decide (e ∈ events ∧ filter_list ∉ subscribed)
     then subscribed ++ [filter_list] else subscribed) ∧
  subscribed `prefix_of` subscribed' ∧
  (NoDup subscribed → NoDup subscribed') ∧
  cog_filter_lists (subscribe filter_list events self) = cog_filter_lists self ∧
  subscribe filter_list events (subscribe filter_list events self) =
    subscribe filter_list events self.
Proof.
  intros subscribed subscribed'.
  split; [apply subscribe_calls_NoDup; simpl; rewrite lookup_empty; apply NoDup_nil_2|].
  split; [apply lookup_subscribe|].
  split; [apply subscribe_prefix|].
  split; [apply subscribe_NoDup|].
  split; [apply subscribe_filter_lists | apply subscribe_idempotent].
Qed.

(** ** Lookups: [_get_list_by_name] and [_get_filter_by_id] *)

Lemma endswith_unfold s suffix :
  endswith s suffix =
  if String.eqb s suffix then true
  else match s with
       | EmptyString => false
       | String _ s' => endswith s' suffix
       end.
Proof. by destruct s. Qed.

Lemma endswith_append s suffix :
  endswith s suffix = true ↔ ∃ base, s = base +:+ suffix.
Proof.
  split.
  - induction s as [|c s IH]; rewrite endswith_unfold;
      destruct (String.eqb _ suffix) eqn:Heq.
    + apply String.eqb_eq in Heq. intros _. by exists "".
    + done.
    + apply String.eqb_eq in Heq. intros _. by exists "".
    + intros Hs. destruct (IH Hs) as [base ->]. by exists (String c base).
  - intros [base ->]. induction base as [|c base IH]; rewrite endswith_unfold.
    + by rewrite String.eqb_refl.
    + destruct (String.eqb (String c base +:+ suffix) suffix); [done|]. exact IH.
Qed.

Lemma drop_last_append base c : drop_last (base +:+ String c "") = base.
Proof.
  induction base as [|d base IH]; [done|].
  simpl. rewrite IH. by destruct base.
Qed.

Lemma append_inj_r base base' c : base +:+ String c "" = base' +:+ String c "" → base = base'.
Proof. intros Heq. by rewrite <- (drop_last_append base c), Heq, drop_last_append. Qed.

Lemma first_some_None {A B} (f : A → option B) (l : list A) :
  first_some f l = None ↔ ∀ x, x ∈ l → f x = None.
Proof.
  induction l as [|x l IH]; simpl.
  - split; [|done]. intros _ y Hy. by apply elem_of_nil in Hy.
  - destruct (f x) eqn:Hx.
    + split; [done|]. intros Hall. rewrite Hall in Hx; [done | apply list_elem_of_here].
    + rewrite IH. split.
      * intros Hall y [-> | Hy]%elem_of_cons; auto.
      * intros Hall y Hy. apply Hall. by apply list_elem_of_further.
Qed.

Lemma first_some_Some {A B} (f : A → option B) (l : list A) b :
  first_some f l = Some b → ∃ x, x ∈ l ∧ f x = Some b.
Proof.
  induction l as [|x l IH]; simpl; [done|].
  destruct (f x) eqn:Hx.
  - intros [= ->]. exists x. split; [apply list_elem_of_here | done].
  - intros Hb. destruct (IH Hb) as (y & Hy & Hfy). exists y.
    split; [by apply list_elem_of_further | done].
Qed.

Lemma elem_of_values {K A} `{Countable K} (m : gmap K A) (x : A) :
  x ∈ values m ↔ ∃ k, m !! k = Some x.
Proof.
  unfold values. rewrite list_elem_of_fmap. split.
  - intros ([k y] & -> & Hin). exists k. by apply elem_of_map_to_list.
  - intros [k Hk]. exists (k, x). split; [done|]. by apply elem_of_map_to_list.
Qed.

(** C8, as amended: the name is looked up as it is, and if that fails and
    it ends in an s, without that s; on no match [BadArgument] is raised
    and nothing else ever is; the lookup of a filter returns [None] exactly
    when no list holds the id, and otherwise a filter stored under it. *)
Theorem lookups_by_name_and_id {V : Type} (self : Filtering V) (list_name : string) (id_ : Z) :
  (∀ filter_list,
     _get_list_by_name self list_name = Ok filter_list ↔
     cog_filter_lists self !! list_name = Some filter_list ∨
     (cog_filter_lists self !! list_name = None ∧
      ∃ base, list_name = base +:+ "s" ∧ cog_filter_lists self !! base = Some filter_list)) ∧
  ((∃ msg, _get_list_by_name self list_name = Raise (BadArgument msg)) ↔
   cog_filter_lists self !! list_name = None ∧
   ∀ base, list_name = base +:+ "s" → cog_filter_lists self !! base = None) ∧
  (∀ e, _get_list_by_name self list_name = Raise e → ∃ msg, e = BadArgument msg) ∧
  (_get_filter_by_id self id_ = None ↔
   ∀ name filter_list list_type sublist,
     cog_filter_lists self !! name = Some filter_list →
     filter_lists filter_list !! list_type = Some sublist →
     sublist !! id_ = None) ∧
  (∀ filter_ filter_list list_type,
     _get_filter_by_id self id_ = Some (filter_, filter_list, list_type) →
     ∃ name sublist,
       cog_filter_lists self !! name = Some filter_list ∧
       filter_lists filter_list !! list_type = Some sublist ∧
       sublist !! id_ = Some filter_).
Proof.
  assert (∀ base, list_name = base +:+ "s" →
            endswith list_name "s" = true ∧ drop_last list_name = base) as Hplural.
  { intros base ->. split; [apply endswith_append; by exists base | apply drop_last_append]. }
  split; [|split; [|split; [|split]]].
  - intros filter_list. unfold _get_list_by_name. split.
    + destruct (cog_filter_lists self !! list_name) as [fl|] eqn:Hl; [intros [= ->]; by left|].
      destruct (endswith list_name "s") eqn:He; [|done].
      destruct (cog_filter_lists self !! drop_last list_name) as [fl|] eqn:Hd; [|done].
      intros [= ->]. right. split; [done|].
      apply endswith_append in He as [base ->]. exists base.
      by rewrite drop_last_append in Hd.
    + intros [Hl | (Hl & base & Hn & Hb)]; rewrite Hl; [done|].
      destruct (Hplural base Hn) as [-> ->]. by rewrite Hb.
  - unfold _get_list_by_name. split.
    + intros [msg Hmsg].
      destruct (cog_filter_lists self !! list_name) as [fl|] eqn:Hl; [done|].
      split; [done|]. intros base Hn.
      destruct (Hplural base Hn) as [He Hd]. rewrite He, Hd in Hmsg.
      by destruct (cog_filter_lists self !! base).
    + intros [Hl Hall]. rewrite Hl.
      destruct (endswith list_name "s") eqn:He; [|by eexists].
      apply endswith_append in He as [base Hn].
      destruct (Hplural base Hn) as [_ ->]. rewrite (Hall base Hn). by eexists.
  - unfold _get_list_by_name. intros e.
    destruct (cog_filter_lists self !! list_name) as [fl|]; [done|].
    destruct (if endswith list_name "s" then _ else _); [done|].
    intros [= <-]. by eexists.
  - unfold _get_filter_by_id. rewrite first_some_None. split.
    + intros Hnone name fl lt sub Hfl Hsub.
      assert (fl ∈ values (cog_filter_lists self)) as Hin by (apply elem_of_values; eauto).
      specialize (Hnone fl Hin). rewrite first_some_None in Hnone.
      assert ((lt, sub) ∈ map_to_list (filter_lists fl)) as Hin'
        by by apply elem_of_map_to_list.
      specialize (Hnone _ Hin'). simpl in Hnone. by destruct (sub !! id_).
    + intros Hall fl [name Hfl]%elem_of_values. rewrite first_some_None.
      intros [lt sub] Hin%elem_of_map_to_list.
      by rewrite (Hall name fl lt sub Hfl Hin).
  - unfold _get_filter_by_id. intros f fl lt Hsome.
    apply first_some_Some in Hsome as (fl' & [name Hfl]%elem_of_values & Hsome).
    apply first_some_Some in Hsome as ([lt' sub] & Hin%elem_of_map_to_list & Hsome).
    destruct (sub !! id_) as [f'|] eqn:Hf; [|done].
    injection Hsome as -> -> ->. by exists name, sub.
Qed.

(** C8, as stated: the stored name [token] and the name [Token] differ in
    case only, and the lookup of [Token] raises. *)
Lemma get_list_by_name_is_case_sensitive :
  cog_filter_lists cog_token !! "token" = Some (FilterList_init TokenFilter) ∧
  lower "Token" = lower "token" ∧
  _get_list_by_name cog_token "Token" =
    Raise (BadArgument "There's no filter list named 'Token'.").
Proof. repeat split; reflexivity. Qed.

(** ** Loading: [add_filter] and [add_list] *)

Section loading.
Context {V : Type}.
Implicit Types (self : FilterList V) (filter_data : FilterData) (list_type : ListType).

(** The four ways a call of [add_filter] can go. *)
Lemma add_filter_run filter_data list_type self :
  add_filter filter_data list_type self =
  match filter_type self filter_data with
  | Raise (TypeError msg) => (Ok tt, self, [warning_exception (TypeError msg)])
  | Raise e => (Raise e, self, [])
  | Ok new_filter =>
      match filter_lists self !! list_type with
      | None => (Raise (KeyError "list_type"), self, [])
      | Some sublist =>
          match fd_id filter_data with
          | None => (Raise (KeyError "id"), self, [])
          | Some key =>
              (Ok tt,
               {| list_ids := list_ids self;
                  filter_lists :=
                    <[list_type := <[key := new_filter]> sublist]> (filter_lists self);
                  defaults := defaults self; filter_type := filter_type self |},
               [])
          end
      end
  end.
Proof.
  unfold add_filter, try_except, bind, get, lift, subscript, set_filter_lists, raise, ret.
  destruct (filter_type self filter_data) as [new_filter | []]; simpl; try done.
  destruct (filter_lists self !! list_type) as [sublist|]; simpl; [|done].
  by destruct (fd_id filter_data).
Qed.

(** A record without an id that the constructor does not reject with a
    [TypeError] makes [add_filter] raise. *)
Lemma add_filter_without_id filter_data list_type self :
  fd_id filter_data = None →
  (∀ msg, filter_type self filter_data ≠ Raise (TypeError msg)) →
  ∃ e, (add_filter filter_data list_type self).1.1 = Raise e.
Proof.
  intros Hid Hno. rewrite add_filter_run, Hid.
  destruct (filter_type self filter_data) as [new_filter | e] eqn:Hf.
  - destruct (filter_lists self !! list_type); by eexists.
  - destruct e; try by eexists. by destruct (Hno msg).
Qed.

(** Whatever [add_filter] does, it touches the list of one type only. *)
Lemma add_filter_frame filter_data list_type self :
  let self' := (add_filter filter_data list_type self).1.2 in
  list_ids self' = list_ids self ∧ defaults self' = defaults self ∧
  filter_type self' = filter_type self ∧
  (∀ other, other ≠ list_type → filter_lists self' !! other = filter_lists self !! other) ∧
  (∀ id_ f, stored_filter self' list_type id_ = Some f →
     stored_filter self list_type id_ = Some f ∨
     (fd_id filter_data = Some id_ ∧ filter_type self filter_data = Ok f)).
Proof.
  rewrite add_filter_run.
  destruct (filter_type self filter_data) as [new_filter | []] eqn:Hf; simpl;
    try (repeat split; by auto).
  destruct (filter_lists self !! list_type) as [sublist|] eqn:Hl; simpl;
    try (repeat split; by auto).
  destruct (fd_id filter_data) as [key|]; simpl; try (repeat split; by auto).
  repeat split; try done.
  - intros other Hne. by rewrite lookup_insert_ne.
  - intros id_ f. unfold stored_filter. simpl. rewrite lookup_insert_eq, Hl. simpl.
    destruct (decide (key = id_)) as [-> | Hne].
    + rewrite lookup_insert_eq. intros [= ->]. by right.
    + rewrite lookup_insert_ne by done. by left.
Qed.

Lemma for_each_add_filter_frame (filters : list FilterData) list_type self :
  let self' := (for_each filters (λ filter_data, add_filter filter_data list_type) self).1.2 in
  list_ids self' = list_ids self ∧ defaults self' = defaults self ∧
  filter_type self' = filter_type self ∧
  (∀ other, other ≠ list_type → filter_lists self' !! other = filter_lists self !! other) ∧
  (∀ id_ f, stored_filter self' list_type id_ = Some f →
     stored_filter self list_type id_ = Some f ∨
     ∃ filter_data, filter_data ∈ filters ∧ fd_id filter_data = Some id_ ∧
                    filter_type self filter_data = Ok f).
Proof.
  revert self. induction filters as [|fd filters IH]; intros self; simpl.
  - repeat split; by auto.
  - unfold bind.
    pose proof (add_filter_frame fd list_type self) as (H1 & H2 & H3 & H4 & H5).
    destruct (add_filter fd list_type self) as [[[[]|e] s1] l1]; simpl in *.
    + pose proof (IH s1) as (I1 & I2 & I3 & I4 & I5).
      destruct (for_each filters _ s1) as [[r s2] l2]; simpl in *.
      repeat split; try congruence.
      * intros other Hne. by rewrite I4, H4.
      * intros id_ f Hs. destruct (I5 id_ f Hs) as [Hs1 | (fd' & Hin & Hid & Hty)].
        -- destruct (H5 id_ f Hs1) as [Hs0 | [Hid Hty]]; [by left|].
           right. exists fd. split; [apply list_elem_of_here | done].
        -- right. exists fd'. split; [by apply list_elem_of_further|].
           split; [done | congruence].
    + repeat split; try done.
      intros id_ f Hs. destruct (H5 id_ f Hs) as [Hs0 | [Hid Hty]]; [by left|].
      right. exists fd. split; [apply list_elem_of_here | done].
Qed.

Variable create_settings : create_settings_t V.

(** [add_list] sets the three entries of the list type and then adds the
    filters of the record one by one. *)
Lemma add_list_run (list_data : ListData) self :
  add_list create_settings list_data self =
  match create_settings (ld_settings list_data) true with
  | Raise e => (Raise e, self, [])
  | Ok (actions, validations) =>
      match ListType_of_value (ld_list_type list_data) with
      | Raise e => (Raise e, self, [])
      | Ok list_type =>
          for_each (ld_filters list_data) (λ filter_data, add_filter filter_data list_type)
            {| list_ids := <[list_type := ld_id list_data]> (list_ids self);
               filter_lists := <[list_type := ∅]> (filter_lists self);
               defaults :=
                 <[list_type := {| d_actions := actions; d_validations := validations |}]>
                   (defaults self);
               filter_type := filter_type self |}
      end
  end.
Proof.
  unfold add_list, bind, lift, set_defaults, set_list_ids, set_filter_lists.
  destruct (create_settings (ld_settings list_data) true) as [[actions validations] | e];
    simpl; [|done].
  destruct (ListType_of_value (ld_list_type list_data)) as [list_type | e]; simpl; [|done].
  by destruct (for_each _ _ _) as [[r s] l].
Qed.

(** Whatever a call of [add_list] for a list type does, it leaves the
    entries of the other type and the filter class alone. *)
Lemma add_list_frame (list_data : ListData) list_type self :
  ListType_of_value (ld_list_type list_data) = Ok list_type →
  let self' := (add_list create_settings list_data self).1.2 in
  filter_type self' = filter_type self ∧
  ∀ other, other ≠ list_type →
    list_ids self' !! other = list_ids self !! other ∧
    filter_lists self' !! other = filter_lists self !! other ∧
    defaults self' !! other = defaults self !! other.
Proof.
  intros Hlt. rewrite add_list_run, Hlt.
  destruct (create_settings (ld_settings list_data) true) as [[actions validations] | e];
    simpl; [|done].
  match goal with
  | |- context [for_each ?l ?b ?s] =>
      pose proof (for_each_add_filter_frame l list_type s) as (H1 & H2 & H3 & H4 & _)
  end.
  simpl in *. split; [done|]. intros other Hne.
  rewrite H1, H2, H4 by done. by rewrite !lookup_insert_ne.
Qed.
End loading.

Section loading_claims.
Context {V : Type}.
Implicit Types (self : FilterList V) (filter_data : FilterData) (list_type : ListType).

(** C7, as amended: for a list type that is loaded, a record that the
    constructor rejects with a [TypeError] does not raise: it is logged and
    skipped.  A record that makes the constructor raise anything else, or
    that the constructor takes but that has no [id], raises to the caller
    and nothing is logged.  In each of these cases the object is as it
    was; and whatever the record is, a filter that was loaded is still
    there afterwards unless the record is stored under its id. *)
Theorem add_filter_malformed_record self filter_data list_type sublist :
  filter_lists self !! list_type = Some sublist →
  (∀ msg, filter_type self filter_data = Raise (TypeError msg) →
     add_filter filter_data list_type self =
     (Ok tt, self, [warning_exception (TypeError msg)])) ∧
  (∀ e, filter_type self filter_data = Raise e → (∀ msg, e ≠ TypeError msg) →
     add_filter filter_data list_type self = (Raise e, self, [])) ∧
  (∀ new_filter, filter_type self filter_data = Ok new_filter → fd_id filter_data = None →
     add_filter filter_data list_type self = (Raise (KeyError "id"), self, [])) ∧
  (∀ id_ f, stored_filter self list_type id_ = Some f →
     stored_filter (add_filter filter_data list_type self).1.2 list_type id_ = Some f ∨
     (fd_id filter_data = Some id_ ∧
      ∃ new_filter, filter_type self filter_data = Ok new_filter ∧
        stored_filter (add_filter filter_data list_type self).1.2 list_type id_ =
          Some new_filter)).
Proof.
  intros Hl. rewrite add_filter_run, Hl. split; [|split; [|split]].
  - by intros msg ->.
  - intros e -> Hne. destruct e; try done. by destruct (Hne msg).
  - by intros new_filter -> ->.
  - intros id_ f Hs.
    destruct (filter_type self filter_data) as [new_filter | []]; simpl; try by left.
    destruct (fd_id filter_data) as [key|]; simpl; [|by left].
    unfold stored_filter in *. simpl. rewrite lookup_insert_eq. simpl.
    rewrite Hl in Hs. simpl in Hs.
    destruct (decide (key = id_)) as [-> | Hne].
    + right. split; [done|]. exists new_filter. by rewrite lookup_insert_eq.
    + left. by rewrite lookup_insert_ne.
Qed.

Variable create_settings : create_settings_t V.

(** What a call of [add_list] leaves under its list type once the settings
    and the list type are accepted. *)
Lemma add_list_entries (list_data : ListData) self actions validations list_type :
  create_settings (ld_settings list_data) true = Ok (actions, validations) →
  ListType_of_value (ld_list_type list_data) = Ok list_type →
  list_ids (add_list create_settings list_data self).1.2 !! list_type =
    Some (ld_id list_data) ∧
  defaults (add_list create_settings list_data self).1.2 !! list_type =
    Some {| d_actions := actions; d_validations := validations |} ∧
  filter_type (add_list create_settings list_data self).1.2 = filter_type self ∧
  (∀ id_ f,
     stored_filter (add_list create_settings list_data self).1.2 list_type id_ = Some f →
     ∃ filter_data, filter_data ∈ ld_filters list_data ∧ fd_id filter_data = Some id_ ∧
                    filter_type self filter_data = Ok f).
Proof.
  intros Hcs Hlt. rewrite add_list_run, Hcs, Hlt.
  set (start := {| list_ids := _; filter_lists := _; defaults := _; filter_type := _ |}).
  pose proof (for_each_add_filter_frame (ld_filters list_data) list_type start)
    as (H1 & H2 & H3 & _ & H5).
  simpl in *. rewrite H1, H2, H3.
  split; [unfold start; simpl; apply lookup_insert_eq|].
  split; [unfold start; simpl; apply lookup_insert_eq|].
  split; [done|].
  intros id_ f Hs. destruct (H5 id_ f Hs) as [Hs0 | Hfd]; [|done].
  unfold stored_filter, start in Hs0. simpl in Hs0.
  by rewrite lookup_insert_eq in Hs0.
Qed.

(** C6, as amended: after two calls of [add_list] for the same list type
    the stored list id is the one of the later call (so the same as before
    when both calls carry the same id), the defaults are those of the later
    call, and the filters of the list type are those of the later call
    only: each of them was made from a record of the later data, and no
    filter is left under an id that the later data does not hold. *)
Theorem add_list_twice (first second : ListData) self list_type groups actions validations :
  create_settings (ld_settings first) true = Ok groups →
  ListType_of_value (ld_list_type first) = Ok list_type →
  create_settings (ld_settings second) true = Ok (actions, validations) →
  ListType_of_value (ld_list_type second) = Ok list_type →
  let self1 := (add_list create_settings first self).1.2 in
  let self2 := (add_list create_settings second self1).1.2 in
  list_ids self1 !! list_type = Some (ld_id first) ∧
  list_ids self2 !! list_type = Some (ld_id second) ∧
  (ld_id second = ld_id first → list_ids self2 !! list_type = list_ids self1 !! list_type) ∧
  defaults self2 !! list_type =
    Some {| d_actions := actions; d_validations := validations |} ∧
  (∀ id_ f, stored_filter self2 list_type id_ = Some f →
     ∃ filter_data, filter_data ∈ ld_filters second ∧ fd_id filter_data = Some id_ ∧
                    filter_type self filter_data = Ok f) ∧
  (∀ id_, (∀ filter_data, filter_data ∈ ld_filters second → fd_id filter_data ≠ Some id_) →
     stored_filter self2 list_type id_ = None).
Proof.
  intros Hcs1 Hlt1 Hcs2 Hlt2 self1 self2. destruct groups as [actions1 validations1].
  destruct (add_list_entries first self actions1 validations1 list_type Hcs1 Hlt1)
    as (Hid1 & _ & Hty1 & _).
  destruct (add_list_entries second self1 actions validations list_type Hcs2 Hlt2)
    as (Hid2 & Hd2 & _ & Hst2).
  fold self1 in Hid1, Hty1. fold self2 in Hid2, Hd2, Hst2.
  assert (∀ id_ f, stored_filter self2 list_type id_ = Some f →
            ∃ filter_data, filter_data ∈ ld_filters second ∧ fd_id filter_data = Some id_ ∧
                           filter_type self filter_data = Ok f) as Hst.
  { intros id_ f Hs. destruct (Hst2 id_ f Hs) as (fd & Hin & Hfid & Hf).
    exists fd. by rewrite <- Hty1. }
  split; [done|]. split; [done|]. split; [intros Heq; by rewrite Hid1, Hid2, Heq|].
  split; [done|]. split; [done|].
  intros id_ Hnone. destruct (stored_filter self2 list_type id_) as [f|] eqn:Hs; [|done].
  destruct (Hst id_ f Hs) as (fd & Hin & Hfid & _). by destruct (Hnone fd Hin).
Qed.
End loading_claims.

Lemma add_filter_malformed_record_witness :
  (∀ msg, TokenFilter (filter_record (Some 2) (Some (JInt 0))) = Raise (TypeError msg) →
     add_filter (filter_record (Some 2) (Some (JInt 0))) DENY (loaded_list TokenFilter) =
     (Ok tt, loaded_list TokenFilter, [warning_exception (TypeError msg)])) ∧
  (∀ e, TokenFilter (filter_record (Some 2) (Some (JInt 0))) = Raise e →
     (∀ msg, e ≠ TypeError msg) →
     add_filter (filter_record (Some 2) (Some (JInt 0))) DENY (loaded_list TokenFilter) =
     (Raise e, loaded_list TokenFilter, [])) ∧
  (∀ new_filter, TokenFilter (filter_record (Some 2) (Some (JInt 0))) = Ok new_filter →
     fd_id (filter_record (Some 2) (Some (JInt 0))) = None →
     add_filter (filter_record (Some 2) (Some (JInt 0))) DENY (loaded_list TokenFilter) =
     (Raise (KeyError "id"), loaded_list TokenFilter, [])) ∧
  (∀ id_ f, stored_filter (loaded_list TokenFilter) DENY id_ = Some f →
     stored_filter
       (add_filter (filter_record (Some 2) (Some (JInt 0))) DENY (loaded_list TokenFilter)).1.2
       DENY id_ = Some f ∨
     (fd_id (filter_record (Some 2) (Some (JInt 0))) = Some id_ ∧
      ∃ new_filter, TokenFilter (filter_record (Some 2) (Some (JInt 0))) = Ok new_filter ∧
        stored_filter
          (add_filter (filter_record (Some 2) (Some (JInt 0))) DENY
             (loaded_list TokenFilter)).1.2 DENY id_ = Some new_filter)).
Proof.
  apply (add_filter_malformed_record (loaded_list TokenFilter)
           (filter_record (Some 2) (Some (JInt 0))) DENY {[1 := filter_with 1 None]}).
  reflexivity.
Defined.

(** C7, as stated: a record without its [id] that the constructor takes
    raises a [KeyError] to the caller, and so does a record without its
    [content] when the constructor subscripts the record for it; neither
    is logged. *)
Lemma add_filter_missing_field_raises :
  add_filter (filter_record None (Some (JStr "spam"))) DENY (loaded_list AnyFilter) =
    (Raise (KeyError "id"), loaded_list AnyFilter, []) ∧
  add_filter (filter_record (Some 2) None) DENY (loaded_list TokenFilter) =
    (Raise (KeyError "content"), loaded_list TokenFilter, []).
Proof. split; reflexivity. Qed.

Lemma add_list_twice_witness :
  let self1 := (add_list create_empty_settings first_load (FilterList_init TokenFilter)).1.2 in
  let self2 := (add_list create_empty_settings second_load self1).1.2 in
  list_ids self1 !! DENY = Some (ld_id first_load) ∧
  list_ids self2 !! DENY = Some (ld_id second_load) ∧
  (ld_id second_load = ld_id first_load → list_ids self2 !! DENY = list_ids self1 !! DENY) ∧
  defaults self2 !! DENY = Some {| d_actions := Some ∅; d_validations := Some ∅ |} ∧
  (∀ id_ f, stored_filter self2 DENY id_ = Some f →
     ∃ filter_data, filter_data ∈ ld_filters second_load ∧ fd_id filter_data = Some id_ ∧
                    filter_type (FilterList_init TokenFilter) filter_data = Ok f) ∧
  (∀ id_, (∀ filter_data, filter_data ∈ ld_filters second_load →
             fd_id filter_data ≠ Some id_) →
     stored_filter self2 DENY id_ = None).
Proof.
  apply (add_list_twice create_empty_settings first_load second_load
           (FilterList_init TokenFilter) DENY (Some ∅, Some ∅) (Some ∅) (Some ∅));
    reflexivity.
Defined.

(** C6, as stated: the first load stores filter 1, the second load holds
    filter 2 only and so does not replace filter 1, and after the second
    load filter 1 is gone. *)
Lemma add_list_again_loses_filters :
  let self1 := (add_list create_empty_settings first_load (FilterList_init TokenFilter)).1.2 in
  let self2 := (add_list create_empty_settings second_load self1).1.2 in
  (f_content <$> stored_filter self1 DENY 1) = Some "spam" ∧
  (fd_id <$> ld_filters second_load) = [Some 2] ∧
  (add_list create_empty_settings second_load self1).1.1 = Ok tt ∧
  stored_filter self2 DENY 1 = None ∧
  (f_content <$> stored_filter self2 DENY 2) = Some "eggs".
Proof. repeat split; reflexivity. Qed.

(** ** More on loading: what [add_filter] and [add_list] store and leave *)

Section loading_more.
Context {V : Type}.
Implicit Types (self : FilterList V) (filter_data : FilterData) (list_type : ListType).

(** X1: A record that the constructor takes, for a list type that is loaded,
    is stored under its id; no other id, no other list type, no list id
    and no default changes, and nothing is logged. *)
Theorem add_filter_stores self filter_data list_type new_filter sublist key :
  filter_type self filter_data = Ok new_filter →
  filter_lists self !! list_type = Some sublist →
  fd_id filter_data = Some key →
  (add_filter filter_data list_type self).1.1 = Ok tt ∧
  (add_filter filter_data list_type self).2 = [] ∧
  stored_filter (add_filter filter_data list_type self).1.2 list_type key = Some new_filter ∧
  (∀ other, other ≠ key →
     stored_filter (add_filter filter_data list_type self).1.2 list_type other =
     stored_filter self list_type other) ∧
  (∀ other, other ≠ list_type →
     filter_lists (add_filter filter_data list_type self).1.2 !! other =
     filter_lists self !! other) ∧
  list_ids (add_filter filter_data list_type self).1.2 = list_ids self ∧
  defaults (add_filter filter_data list_type self).1.2 = defaults self.
Proof.
  intros Hf Hl Hid. rewrite add_filter_run, Hf, Hl, Hid. simpl.
  split; [done|]. split; [done|]. unfold stored_filter. simpl.
  split; [by rewrite lookup_insert_eq; simpl; rewrite lookup_insert_eq|].
  split.
  - intros other Hne. rewrite lookup_insert_eq, Hl. simpl. by rewrite lookup_insert_ne.
  - split; [|done]. intros other Hne. by rewrite lookup_insert_ne.
Qed.

(** X2: Of the exceptions of the constructor only a [TypeError] is caught: it
    is logged and the record is skipped.  Whenever [add_filter] raises,
    what it raises is no [TypeError], nothing was logged and the object is
    as it was. *)
Theorem add_filter_catches_TypeError_only self filter_data list_type :
  (∀ msg, filter_type self filter_data = Raise (TypeError msg) →
     add_filter filter_data list_type self =
     (Ok tt, self, [warning_exception (TypeError msg)])) ∧
  (∀ e, filter_type self filter_data = Raise e → (∀ msg, e ≠ TypeError msg) →
     add_filter filter_data list_type self = (Raise e, self, [])) ∧
  (∀ e, (add_filter filter_data list_type self).1.1 = Raise e →
     (∀ msg, e ≠ TypeError msg) ∧
     (add_filter filter_data list_type self).1.2 = self ∧
     (add_filter filter_data list_type self).2 = []).
Proof.
  rewrite add_filter_run. split; [|split].
  - by intros msg ->.
  - intros e -> Hne. destruct e; try done. by destruct (Hne msg).
  - intros e.
    destruct (filter_type self filter_data) as [new_filter | []]; simpl; try done;
      try (intros [= <-]; by repeat split).
    destruct (filter_lists self !! list_type); simpl; [|intros [= <-]; by repeat split].
    destruct (fd_id filter_data); simpl; [done|]. intros [= <-]. by repeat split.
Qed.

(** X3: A record for a list type that was never loaded raises a [KeyError],
    also when the constructor takes it and it has its id. *)
Theorem add_filter_unloaded_list_type self filter_data list_type new_filter :
  filter_type self filter_data = Ok new_filter →
  filter_lists self !! list_type = None →
  add_filter filter_data list_type self = (Raise (KeyError "list_type"), self, []).
Proof. intros Hf Hl. by rewrite add_filter_run, Hf, Hl. Qed.

(** [add_filter] never removes a filter: an id that is stored stays
    stored, with its filter or with the new one. *)
Lemma add_filter_keeps_ids filter_data list_type self id_ :
  is_Some (stored_filter self list_type id_) →
  is_Some (stored_filter (add_filter filter_data list_type self).1.2 list_type id_).
Proof.
  intros Hs. rewrite add_filter_run.
  destruct (filter_type self filter_data) as [new_filter | []]; simpl; try done.
  destruct (filter_lists self !! list_type) as [sublist|] eqn:Hl; simpl; [|done].
  destruct (fd_id filter_data) as [key|]; simpl; [|done].
  unfold stored_filter in *. simpl. rewrite lookup_insert_eq. simpl.
  rewrite Hl in Hs. simpl in Hs.
  destruct (decide (key = id_)) as [-> | Hne].
  - rewrite lookup_insert_eq. by eexists.
  - by rewrite lookup_insert_ne.
Qed.

Lemma for_each_add_filter_keeps_ids (filters : list FilterData) list_type self id_ :
  is_Some (stored_filter self list_type id_) →
  is_Some (stored_filter
             (for_each filters (λ filter_data, add_filter filter_data list_type) self).1.2
             list_type id_).
Proof.
  revert self. induction filters as [|fd filters IH]; intros self Hs; simpl; [done|].
  unfold bind.
  pose proof (add_filter_keeps_ids fd list_type self id_ Hs) as H1.
  destruct (add_filter fd list_type self) as [[[[]|e] s1] l1]; simpl in *; [|done].
  specialize (IH s1 H1).
  by destruct (for_each filters _ s1) as [[r s2] l2].
Qed.

Lemma add_filter_keeps_list filter_data list_type self :
  is_Some (filter_lists self !! list_type) →
  is_Some (filter_lists (add_filter filter_data list_type self).1.2 !! list_type).
Proof.
  intros Hs. rewrite add_filter_run.
  destruct (filter_type self filter_data) as [new_filter | []]; simpl; try done.
  destruct (filter_lists self !! list_type) as [sublist|] eqn:Hl; simpl; [|done].
  destruct (fd_id filter_data) as [key|]; simpl; [|by rewrite Hl].
  rewrite lookup_insert_eq. by eexists.
Qed.

Lemma for_each_add_filter_keeps_list (filters : list FilterData) list_type self :
  is_Some (filter_lists self !! list_type) →
  is_Some (filter_lists
             (for_each filters (λ filter_data, add_filter filter_data list_type) self).1.2
           !! list_type).
Proof.
  revert self. induction filters as [|fd filters IH]; intros self Hs; simpl; [done|].
  unfold bind.
  pose proof (add_filter_keeps_list fd list_type self Hs) as H1.
  destruct (add_filter fd list_type self) as [[[[]|e] s1] l1]; simpl in *; [|done].
  specialize (IH s1 H1).
  by destruct (for_each filters _ s1) as [[r s2] l2].
Qed.

(** A stored filter stays as it is while the loop meets no record of its
    id that the constructor takes. *)
Lemma for_each_add_filter_keeps_filter (filters : list FilterData) list_type self key f :
  stored_filter self list_type key = Some f →
  (∀ filter_data, filter_data ∈ filters → fd_id filter_data = Some key →
     ∃ msg, filter_type self filter_data = Raise (TypeError msg)) →
  stored_filter
    (for_each filters (λ filter_data, add_filter filter_data list_type) self).1.2
    list_type key = Some f.
Proof.
  revert self. induction filters as [|fd filters IH]; intros self Hs Hrej; simpl; [done|].
  unfold bind.
  pose proof (add_filter_frame fd list_type self) as (_ & _ & Hty & _).
  pose proof (add_filter_run fd list_type self) as Hrun.
  assert (stored_filter (add_filter fd list_type self).1.2 list_type key = Some f) as Hs1.
  { rewrite Hrun.
    destruct (filter_type self fd) as [new_filter | []] eqn:Hf; simpl; try done.
    destruct (filter_lists self !! list_type) as [sublist|] eqn:Hl; simpl; [|done].
    destruct (fd_id fd) as [key'|] eqn:Hid; simpl; [|done].
    unfold stored_filter in *. simpl. rewrite lookup_insert_eq. simpl.
    rewrite Hl in Hs. simpl in Hs.
    destruct (decide (key' = key)) as [-> | Hne]; [|by rewrite lookup_insert_ne].
    destruct (Hrej fd (list_elem_of_here _ _) Hid) as [msg Hmsg]. congruence. }
  destruct (add_filter fd list_type self) as [[[[]|e] s1] l1]; simpl in *; [|done].
  assert (stored_filter (for_each filters (λ filter_data, add_filter filter_data list_type) s1).1.2
            list_type key = Some f) as Hend.
  { apply IH; [done|]. intros fd' Hin Hid. rewrite Hty.
    apply Hrej; [by apply list_elem_of_further | done]. }
  by destruct (for_each filters _ s1) as [[r s2] l2].
Qed.

(** When the loop over the records returns normally, every record was
    either rejected with a [TypeError] or taken with its id, and the filter
    made of it is the one stored under that id unless the constructor took
    a later record of the same id too. *)
Lemma for_each_add_filter_last_wins (before : list FilterData) :
  ∀ self filter_data after list_type,
    (for_each (before ++ filter_data :: after)
       (λ filter_data, add_filter filter_data list_type) self).1.1 = Ok tt →
    (∃ msg, filter_type self filter_data = Raise (TypeError msg)) ∨
    (∃ key f, fd_id filter_data = Some key ∧ filter_type self filter_data = Ok f ∧
       ((∀ later, later ∈ after → fd_id later = Some key →
           ∃ msg, filter_type self later = Raise (TypeError msg)) →
        stored_filter
          (for_each (before ++ filter_data :: after)
             (λ filter_data, add_filter filter_data list_type) self).1.2
          list_type key = Some f)).
Proof.
  induction before as [|fd before IH]; intros self x after list_type Hok; simpl in *;
    unfold bind in *.
  - pose proof (add_filter_frame x list_type self) as (_ & _ & Hty & _).
    pose proof (add_filter_run x list_type self) as Hrun.
    pose proof (for_each_add_filter_keeps_filter after list_type
                  (add_filter x list_type self).1.2) as Hkeep.
    destruct (add_filter x list_type self) as [[[[]|e] s1] l1] eqn:Hadd; simpl in *; [|done].
    destruct (filter_type self x) as [new_filter | []] eqn:Hf; try done; [|left; by eexists].
    destruct (filter_lists self !! list_type) as [sublist|] eqn:Hl; [|done].
    destruct (fd_id x) as [key|] eqn:Hid; [|done].
    right. exists key, new_filter. do 2 (split; [done|]). intros Hrej.
    specialize (Hkeep key new_filter).
    destruct (for_each after _ s1) as [[r s2] l2]; simpl in *.
    apply Hkeep.
    + simplify_eq. unfold stored_filter. simpl.
      rewrite lookup_insert_eq. simpl. by rewrite lookup_insert_eq.
    + intros later Hin Hlid. rewrite Hty. by apply Hrej.
  - pose proof (add_filter_frame fd list_type self) as (_ & _ & Hty & _).
    destruct (add_filter fd list_type self) as [[[[]|e] s1] l1]; simpl in *; [|done].
    specialize (IH s1 x after list_type).
    destruct (for_each (before ++ x :: after) _ s1) as [[r s2] l2]; simpl in *.
    rewrite Hty in IH. by apply IH.
Qed.

Variable create_settings : create_settings_t V.

(** X4: [add_list] raises before it touches the object when the settings are
    rejected or the list type is neither 0 nor 1; the settings are looked
    at first. *)
Theorem add_list_rejects_untouched (list_data : ListData) self :
  (∀ e, create_settings (ld_settings list_data) true = Raise e →
     add_list create_settings list_data self = (Raise e, self, [])) ∧
  (∀ groups, create_settings (ld_settings list_data) true = Ok groups →
     ld_list_type list_data ≠ 0 → ld_list_type list_data ≠ 1 →
     add_list create_settings list_data self =
     (Raise (ValueError "not a valid ListType"), self, [])).
Proof.
  rewrite add_list_run. split.
  - by intros e ->.
  - intros [actions validations] -> H0 H1. unfold ListType_of_value.
    by rewrite !decide_False.
Qed.

(** X5: Once the settings and the list type are accepted, the id of the list
    and the defaults are stored and the filters are those of the record,
    whether the loop over the filters ends or raises.  When the call
    returns normally every filter record was rejected with a [TypeError]
    or taken with its id, and the filter made of it is the one stored
    under that id unless the constructor took a later record of the same
    id too: of the records that share an id the last one taken stays. *)
Theorem add_list_stores (list_data : ListData) self actions validations list_type :
  create_settings (ld_settings list_data) true = Ok (actions, validations) →
  ListType_of_value (ld_list_type list_data) = Ok list_type →
  list_ids (add_list create_settings list_data self).1.2 !! list_type =
    Some (ld_id list_data) ∧
  defaults (add_list create_settings list_data self).1.2 !! list_type =
    Some {| d_actions := actions; d_validations := validations |} ∧
  is_Some (filter_lists (add_list create_settings list_data self).1.2 !! list_type) ∧
  (∀ id_ f,
     stored_filter (add_list create_settings list_data self).1.2 list_type id_ = Some f →
     ∃ filter_data, filter_data ∈ ld_filters list_data ∧ fd_id filter_data = Some id_ ∧
                    filter_type self filter_data = Ok f) ∧
  ((add_list create_settings list_data self).1.1 = Ok tt →
   ∀ before filter_data after, ld_filters list_data = before ++ filter_data :: after →
     (∃ msg, filter_type self filter_data = Raise (TypeError msg)) ∨
     (∃ key f, fd_id filter_data = Some key ∧ filter_type self filter_data = Ok f ∧
        ((∀ later, later ∈ after → fd_id later = Some key →
            ∃ msg, filter_type self later = Raise (TypeError msg)) →
         stored_filter (add_list create_settings list_data self).1.2 list_type key = Some f))).
Proof.
  intros Hcs Hlt. rewrite add_list_run, Hcs, Hlt.
  set (start := {| list_ids := _; filter_lists := _; defaults := _; filter_type := _ |}).
  pose proof (for_each_add_filter_frame (ld_filters list_data) list_type start)
    as (H1 & H2 & H3 & H4 & H5).
  pose proof (for_each_add_filter_keeps_list (ld_filters list_data) list_type start) as H7.
  assert (filter_lists start !! list_type = Some ∅) as Hlist
    by (unfold start; simpl; apply lookup_insert_eq).
  assert (∀ id_ : Z, stored_filter start list_type id_ = None) as Hempty.
  { intros id_. unfold stored_filter. by rewrite Hlist. }
  simpl in *. rewrite H1, H2.
  split; [unfold start; simpl; apply lookup_insert_eq|].
  split; [unfold start; simpl; apply lookup_insert_eq|].
  split; [apply H7; by rewrite Hlist|].
  split.
  - intros id_ f Hs. destruct (H5 id_ f Hs) as [Hs0 | Hfd]; [|done].
    by rewrite Hempty in Hs0.
  - intros Hok before filter_data after Heq. rewrite Heq in Hok |- *.
    apply (for_each_add_filter_last_wins before start filter_data after list_type Hok).
Qed.

(** X6: Loading a list type again replaces what the earlier load stored for
    it: the call ends as it would on the object before the earlier load. *)
Theorem add_list_again_replaces (first second : ListData) self list_type groups :
  ListType_of_value (ld_list_type first) = Ok list_type →
  ListType_of_value (ld_list_type second) = Ok list_type →
  create_settings (ld_settings second) true = Ok groups →
  add_list create_settings second (add_list create_settings first self).1.2 =
  add_list create_settings second self.
Proof.
  intros Hlt1 Hlt2 Hcs.
  pose proof (add_list_frame create_settings first list_type self Hlt1) as [Hty Hoff].
  simpl in Hty, Hoff.
  set (self1 := (add_list create_settings first self).1.2) in *.
  rewrite (add_list_run create_settings second self1),
    (add_list_run create_settings second self), Hcs, Hlt2.
  destruct groups as [actions validations].
  f_equal. rewrite Hty. f_equal.
  - apply map_eq. intros other. destruct (decide (list_type = other)) as [-> | Hne].
    + by rewrite !lookup_insert_eq.
    + rewrite !lookup_insert_ne by done. by apply Hoff.
  - apply map_eq. intros other. destruct (decide (list_type = other)) as [-> | Hne].
    + by rewrite !lookup_insert_eq.
    + rewrite !lookup_insert_ne by done. by apply Hoff.
  - apply map_eq. intros other. destruct (decide (list_type = other)) as [-> | Hne].
    + by rewrite !lookup_insert_eq.
    + rewrite !lookup_insert_ne by done. by apply Hoff.
Qed.
End loading_more.

Lemma add_filter_stores_witness :
  (add_filter eggs_record DENY (loaded_list TokenFilter)).1.1 = Ok tt ∧
  (add_filter eggs_record DENY (loaded_list TokenFilter)).2 = [] ∧
  stored_filter (add_filter eggs_record DENY (loaded_list TokenFilter)).1.2 DENY 2 =
    Some eggs_filter ∧
  (∀ other, other ≠ 2 →
     stored_filter (add_filter eggs_record DENY (loaded_list TokenFilter)).1.2 DENY other =
     stored_filter (loaded_list TokenFilter) DENY other) ∧
  (∀ other, other ≠ DENY →
     filter_lists (add_filter eggs_record DENY (loaded_list TokenFilter)).1.2 !! other =
     filter_lists (loaded_list TokenFilter) !! other) ∧
  list_ids (add_filter eggs_record DENY (loaded_list TokenFilter)).1.2 =
    list_ids (loaded_list TokenFilter) ∧
  defaults (add_filter eggs_record DENY (loaded_list TokenFilter)).1.2 =
    defaults (loaded_list TokenFilter).
Proof.
  apply (add_filter_stores (loaded_list TokenFilter) eggs_record DENY eggs_filter
           {[1 := filter_with 1 None]} 2); reflexivity.
Defined.

Lemma add_filter_unloaded_list_type_witness :
  add_filter eggs_record ALLOW (loaded_list TokenFilter) =
  (Raise (KeyError "list_type"), loaded_list TokenFilter, []).
Proof.
  apply (add_filter_unloaded_list_type (loaded_list TokenFilter) eggs_record ALLOW
           eggs_filter); reflexivity.
Defined.

Lemma add_list_stores_witness :
  list_ids (add_list create_empty_settings second_load (loaded_list TokenFilter)).1.2
    !! DENY = Some 5 ∧
  defaults (add_list create_empty_settings second_load (loaded_list TokenFilter)).1.2
    !! DENY = Some {| d_actions := Some ∅; d_validations := Some ∅ |} ∧
  is_Some
    (filter_lists (add_list create_empty_settings second_load (loaded_list TokenFilter)).1.2
       !! DENY) ∧
  (∀ id_ f,
     stored_filter (add_list create_empty_settings second_load (loaded_list TokenFilter)).1.2
       DENY id_ = Some f →
     ∃ filter_data, filter_data ∈ ld_filters second_load ∧ fd_id filter_data = Some id_ ∧
                    filter_type (loaded_list TokenFilter) filter_data = Ok f) ∧
  ((add_list create_empty_settings second_load (loaded_list TokenFilter)).1.1 = Ok tt →
   ∀ before filter_data after, ld_filters second_load = before ++ filter_data :: after →
     (∃ msg, filter_type (loaded_list TokenFilter) filter_data = Raise (TypeError msg)) ∨
     (∃ key f, fd_id filter_data = Some key ∧
        filter_type (loaded_list TokenFilter) filter_data = Ok f ∧
        ((∀ later, later ∈ after → fd_id later = Some key →
            ∃ msg, filter_type (loaded_list TokenFilter) later = Raise (TypeError msg)) →
         stored_filter
           (add_list create_empty_settings second_load (loaded_list TokenFilter)).1.2
           DENY key = Some f))).
Proof.
  apply (add_list_stores create_empty_settings second_load (loaded_list TokenFilter)
           (Some ∅) (Some ∅) DENY); reflexivity.
Defined.

(** Two records of the same id: both are taken, nothing is logged, and the
    later one is the filter stored under the id. *)
Lemma add_list_same_id_last_stays :
  let list_data :=
    deny_list_data [filter_record (Some 1) (Some (JStr "spam"));
                    filter_record (Some 1) (Some (JStr "eggs"))] in
  let run := add_list create_empty_settings list_data (FilterList_init TokenFilter) in
  run.1.1 = Ok tt ∧ run.2 = [] ∧
  (f_content <$> stored_filter run.1.2 DENY 1) = Some "eggs".
Proof. repeat split; reflexivity. Qed.

Lemma add_list_again_replaces_witness :
  add_list create_empty_settings second_load
    (add_list create_empty_settings first_load (FilterList_init TokenFilter)).1.2 =
  add_list create_empty_settings second_load (FilterList_init TokenFilter).
Proof.
  apply (add_list_again_replaces create_empty_settings first_load second_load
           (FilterList_init TokenFilter) DENY (Some ∅, Some ∅)); reflexivity.
Defined.

(** ** More on the relevance algorithm *)

Lemma foldl_select_sublist {A} (keep : A → bool) (l acc : list A) :
  ∃ chosen, foldl (λ acc y, if keep y then acc ++ [y] else acc) acc l = acc ++ chosen ∧
            chosen `sublist_of` l.
Proof.
  revert acc. induction l as [|y l IH]; intros acc; simpl.
  - exists []. by rewrite app_nil_r.
  - destruct (keep y).
    + destruct (IH (acc ++ [y])) as (chosen & -> & Hsub).
      exists (y :: chosen). rewrite <- app_assoc. split; [done|]. by apply sublist_skip.
    + destruct (IH acc) as (chosen & -> & Hsub).
      exists chosen. split; [done|]. by apply sublist_cons.
Qed.

(** X7: The returned filters are a subsequence of the values of the dictionary:
    in its order, none twice that is not twice in it, never more than it
    holds; and the matcher of each of them triggers on the context. *)
Theorem filter_list_result_subsequence {V : Type} ctx (filters : gmap Z (Filter V))
    (defaults : gmap string ValidationEntry) :
  filter_list_result ctx filters defaults `sublist_of` values filters ∧
  (length (filter_list_result ctx filters defaults) ≤ size filters)%nat ∧
  Forall (λ f, triggered_on f ctx = true) (filter_list_result ctx filters defaults).
Proof.
  assert (filter_list_result ctx filters defaults `sublist_of` values filters) as Hsub.
  { unfold filter_list_result.
    destruct (evaluate defaults ctx) as [passed_by_default failed_by_default].
    erewrite (foldl_ext_all _
      (λ acc y,
         if (match f_validations y with
             | Some v =>
                 if negb (bool_decide (v ≠ ∅))
                 then negb (bool_decide (failed_by_default ≠ ∅)) && triggered_on y ctx
                 else negb (bool_decide ((evaluate v ctx).2 ≠ ∅)) &&
                      bool_decide (failed_by_default ⊂ (evaluate v ctx).1) &&
                      triggered_on y ctx
             | None => negb (bool_decide (failed_by_default ≠ ∅)) && triggered_on y ctx
             end)
         then acc ++ [y] else acc)).
    - destruct (foldl_select_sublist
                  (λ y : Filter V,
                     match f_validations y with
                     | Some v =>
                         if negb (bool_decide (v ≠ ∅))
                         then negb (bool_decide (failed_by_default ≠ ∅)) && triggered_on y ctx
                         else negb (bool_decide ((evaluate v ctx).2 ≠ ∅)) &&
                              bool_decide (failed_by_default ⊂ (evaluate v ctx).1) &&
                              triggered_on y ctx
                     | None => negb (bool_decide (failed_by_default ≠ ∅)) && triggered_on y ctx
                     end)
                  (values filters) []) as (chosen & -> & Hsub).
      done.
    - intros acc y. destruct (f_validations y) as [v|]; [|done].
      destruct (negb (bool_decide (v ≠ ∅))); [done|].
      destruct (evaluate v ctx) as [passed failed]. simpl.
      destruct (negb (bool_decide (failed ≠ ∅)) && bool_decide (failed_by_default ⊂ passed));
        simpl; [done|]. by destruct (triggered_on y ctx). }
  split; [done|]. split.
  - apply sublist_length in Hsub. unfold values in Hsub.
    by rewrite length_fmap, length_map_to_list in Hsub.
  - apply Forall_forall. intros f Hf.
    by apply elem_of_filter_list_result in Hf as (_ & Ht & _).
Qed.

(** ** The converter of list types *)

Lemma lower_ascii_idemp c : lower_ascii (lower_ascii c) = lower_ascii c.
Proof. by destruct c as [[] [] [] [] [] [] [] []]. Qed.

Lemma lower_idemp s : lower (lower s) = lower s.
Proof. induction s as [|c s IH]; simpl; [done|]. by rewrite lower_ascii_idemp, IH. Qed.

(** X8: The converter reads its argument through [lower] only: arguments that
    differ in the case of their letters convert alike, to the same list
    type or to the same error. *)
Theorem list_type_converter_ignores_case (past_tense : string → string) (argument : string) :
  list_type_converter past_tense (lower argument) = list_type_converter past_tense argument ∧
  ∀ other, lower other = lower argument →
    list_type_converter past_tense other = list_type_converter past_tense argument.
Proof.
  split.
  - unfold list_type_converter. by rewrite lower_idemp.
  - intros other Heq. unfold list_type_converter. by rewrite Heq.
Qed.

Lemma elem_of_past_tenses (past_tense : string → string) (names : gset string) a :
  a ∈ past_tense <$> elements names ↔ ∃ n, n ∈ names ∧ past_tense n = a.
Proof.
  rewrite list_elem_of_fmap. split.
  - intros (n & -> & Hn%elem_of_elements). by exists n.
  - intros (n & Hn & <-). exists n. split; [done|]. by apply elem_of_elements.
Qed.

Lemma list_type_converter_cases (past_tense : string → string) (argument : string) :
  let named (names : gset string) :=
    lower argument ∈ names ∨ ∃ n, n ∈ names ∧ past_tense n = lower argument in
  (list_type_converter past_tense argument = Ok DENY ↔ named deny_aliases) ∧
  (list_type_converter past_tense argument = Ok ALLOW ↔
   ¬ named deny_aliases ∧ named allow_aliases) ∧
  (list_type_converter past_tense argument =
     Raise (BadArgument ("No matching list type found for '" +:+ lower argument +:+ "'.")) ↔
   ¬ named deny_aliases ∧ ¬ named allow_aliases).
Proof.
  intros named.
  assert (∀ names,
    bool_decide (lower argument ∈ names) ||
    bool_decide (lower argument ∈ past_tense <$> elements names) = true ↔ named names)
    as Hnamed.
  { intros names. rewrite orb_true_iff, !bool_decide_eq_true, elem_of_past_tenses. done. }
  unfold list_type_converter, aliases. cbn [first_some].
  pose proof (Hnamed deny_aliases) as Hd. pose proof (Hnamed allow_aliases) as Ha.
  destruct (bool_decide (lower argument ∈ deny_aliases) || _) eqn:Ed.
  - assert (named deny_aliases) as Hyes by by apply Hd.
    split; [tauto|]. split; (split; [done | tauto]).
  - assert (¬ named deny_aliases) as Hno.
    { intros Hn. apply Hd in Hn. congruence. }
    destruct (bool_decide (lower argument ∈ allow_aliases) || _) eqn:Ea.
    + assert (named allow_aliases) as Hyes by by apply Ha.
      split; [split; [done | tauto]|]. split; [tauto|]. split; [done | tauto].
    + assert (¬ named allow_aliases) as Hno'.
      { intros Hn. apply Ha in Hn. congruence. }
      split; [split; [done | tauto]|]. split; [split; [done | tauto]|]. tauto.
Qed.

(** X9: Which list type the converter returns: the deny list when the lowered
    argument is one of its aliases or the past tense of one, the allow list
    when that holds for the allow list and not for the deny list, which is
    tried first; otherwise [BadArgument] with the lowered argument in its
    message. *)
Theorem list_type_converter_table (past_tense : string → string) (argument : string) :
  let named (names : gset string) :=
    lower argument ∈ names ∨ ∃ n, n ∈ names ∧ past_tense n = lower argument in
  (list_type_converter past_tense argument = Ok DENY ↔ named deny_aliases) ∧
  (list_type_converter past_tense argument = Ok ALLOW ↔
   ¬ named deny_aliases ∧ named allow_aliases) ∧
  (list_type_converter past_tense argument =
     Raise (BadArgument ("No matching list type found for '" +:+ lower argument +:+ "'.")) ↔
   ¬ named deny_aliases ∧ ¬ named allow_aliases).
Proof. apply list_type_converter_cases. Qed.

(** X10: Every alias of the table converts to its list type; for an alias of
    the allow list this needs that it is not the past tense of an alias of
    the deny list. *)
Theorem list_type_converter_aliases (past_tense : string → string) (alias : string) :
  (alias ∈ deny_aliases → list_type_converter past_tense alias = Ok DENY) ∧
  (alias ∈ allow_aliases →
   (∀ n, n ∈ deny_aliases → past_tense n ≠ alias) →
   list_type_converter past_tense alias = Ok ALLOW).
Proof.
  assert (alias ∈ deny_aliases ∪ allow_aliases → lower alias = alias) as Hlow.
  { unfold deny_aliases, allow_aliases. rewrite !elem_of_union, !elem_of_singleton.
    intros H. repeat (destruct H as [H | H]); by subst. }
  split.
  - intros Hin. apply list_type_converter_cases. left.
    rewrite Hlow; [done | by apply elem_of_union_l].
  - intros Hin Hpast. apply list_type_converter_cases.
    rewrite Hlow by by apply elem_of_union_r. split; [|by left].
    intros [Hd | (n & Hn & Heq)]; [|by apply (Hpast n)].
    revert Hin Hd. unfold deny_aliases, allow_aliases.
    rewrite !elem_of_union, !elem_of_singleton.
    intros H H'. repeat (destruct H as [H | H]); subst;
      repeat (destruct H' as [H' | H']); discriminate H'.
Qed.

Lemma list_type_converter_aliases_witness :
  list_type_converter regular_past_tense "bl" = Ok DENY ∧
  list_type_converter regular_past_tense "allow" = Ok ALLOW.
Proof.
  split.
  - apply (list_type_converter_aliases regular_past_tense "bl").
    unfold deny_aliases. rewrite !elem_of_union, !elem_of_singleton. tauto.
  - apply (list_type_converter_aliases regular_past_tense "allow").
    + unfold allow_aliases. rewrite !elem_of_union, !elem_of_singleton. tauto.
    + unfold deny_aliases. intros n. rewrite !elem_of_union, !elem_of_singleton.
      intros H. repeat (destruct H as [H | H]); subst; discriminate.
Defined.

(** ** The describing commands *)

Lemma string_snoc (s : string) : s ≠ "" → ∃ base c, s = base +:+ String c "".
Proof.
  induction s as [|d s IH]; [done|]. intros _.
  destruct (decide (s = "")) as [-> | Hne].
  - by exists "", d.
  - destruct (IH Hne) as (base & c & ->). by exists (String d base), c.
Qed.

Lemma not_given_Some (name : string) : name ≠ "" → not_given (Some name) = false.
Proof.
  intros Hne. unfold not_given. simpl. by rewrite bool_decide_eq_true_2.
Qed.

(** X11: [f_describe] describes the class stored under the name as typed, and
    if there is none the class stored under the name without its last
    character, whatever that character is; it answers that there is no
    such filter only when both are missing. *)
Theorem f_describe_drops_last_character {T : Type} (loaded_filters : gmap string T)
    (filter_name : string) :
  filter_name ≠ "" →
  (∀ t, f_describe loaded_filters (Some filter_name) = description_reply filter_name t ↔
     loaded_filters !! filter_name = Some t ∨
     (loaded_filters !! filter_name = None ∧
      ∃ base c, filter_name = base +:+ String c "" ∧ loaded_filters !! base = Some t)) ∧
  (f_describe loaded_filters (Some filter_name) = not_found_reply filter_name ↔
   loaded_filters !! filter_name = None ∧
   ∀ base c, filter_name = base +:+ String c "" → loaded_filters !! base = None).
Proof.
  intros Hne. unfold f_describe. rewrite (not_given_Some _ Hne). simpl.
  destruct (string_snoc filter_name Hne) as (base0 & c0 & Hsnoc).
  assert (drop_last filter_name = base0) as Hdrop by (rewrite Hsnoc; apply drop_last_append).
  assert (∀ base c, filter_name = base +:+ String c "" → base = base0) as Huniq.
  { intros base c Heq. rewrite <- Hdrop, Heq. symmetry. apply drop_last_append. }
  rewrite Hdrop. split.
  - intros t. destruct (loaded_filters !! filter_name) as [t'|] eqn:Hl.
    + split; [intros [= ->]; by left|]. intros [[= ->] | [? _]]; done.
    + destruct (loaded_filters !! base0) as [t'|] eqn:Hb.
      * split.
        -- intros [= ->]. right. split; [done|]. by exists base0, c0.
        -- intros [? | (_ & base & c & Heq & Hbase)]; [done|].
           rewrite (Huniq base c Heq) in Hbase. congruence.
      * split; [done|]. intros [? | (_ & base & c & Heq & Hbase)]; [done|].
        rewrite (Huniq base c Heq) in Hbase. congruence.
  - destruct (loaded_filters !! filter_name) as [t'|] eqn:Hl.
    + split; [done | by intros [? _]].
    + destruct (loaded_filters !! base0) as [t'|] eqn:Hb.
      * split; [done|]. intros [_ Hall]. specialize (Hall base0 c0 Hsnoc). congruence.
      * split; [|done]. intros _. split; [done|]. intros base c Heq.
        by rewrite (Huniq base c Heq).
Qed.

Lemma f_describe_drops_last_character_witness :
  let loaded : gmap string nat := {["token" := 1%nat]} in
  (∀ t, f_describe loaded (Some "tokenz") = description_reply "tokenz" t ↔
     loaded !! "tokenz" = Some t ∨
     (loaded !! "tokenz" = None ∧
      ∃ base c, "tokenz" = base +:+ String c "" ∧ loaded !! base = Some t)) ∧
  (f_describe loaded (Some "tokenz") = not_found_reply "tokenz" ↔
   loaded !! "tokenz" = None ∧
   ∀ base c, "tokenz" = base +:+ String c "" → loaded !! base = None).
Proof. apply (f_describe_drops_last_character {["token" := 1%nat]} "tokenz"). discriminate. Defined.

Lemma elem_of_keys {K A} `{Countable K} (m : gmap K A) (k : K) :
  k ∈ keys m ↔ is_Some (m !! k).
Proof.
  unfold keys. rewrite list_elem_of_fmap. split.
  - intros ([k' x] & -> & Hin). exists x. by apply elem_of_map_to_list.
  - intros [x Hx]. exists (k, x). split; [done|]. by apply elem_of_map_to_list.
Qed.

(** X12: Without a name ([None] or the empty string) [f_describe] lists the
    names of the loaded filters, each of them once and no other name; and
    every loaded name is described, with the class stored under it, when
    it is given back, the empty name aside, which asks for the listing. *)
Theorem f_describe_listed_names {T : Type} (loaded_filters : gmap string T) :
  f_describe loaded_filters None = names_reply (keys loaded_filters) ∧
  f_describe loaded_filters (Some "") = names_reply (keys loaded_filters) ∧
  NoDup (keys loaded_filters) ∧
  (∀ name, name ∈ keys loaded_filters ↔ is_Some (loaded_filters !! name)) ∧
  (∀ name t, loaded_filters !! name = Some t → name ≠ "" →
     f_describe loaded_filters (Some name) = description_reply name t).
Proof.
  split; [done|]. split; [done|].
  split; [apply NoDup_fst_map_to_list|].
  split; [apply elem_of_keys|].
  intros name t Ht Hne.
  unfold f_describe. rewrite (not_given_Some _ Hne). simpl. by rewrite Ht.
Qed.

Lemma split_once_append sep before after :
  split_once sep before = None →
  split_once sep (before +:+ String sep after) = Some (before, after).
Proof.
  induction before as [|c before IH]; simpl.
  - intros _. by rewrite Ascii.eqb_refl.
  - destruct (Ascii.eqb c sep); [done|].
    destruct (split_once sep before) as [[]|]; [done|].
    intros _. by rewrite IH.
Qed.

Lemma split_once_Some sep s before after :
  split_once sep s = Some (before, after) →
  s = before +:+ String sep after ∧ split_once sep before = None.
Proof.
  revert before. induction s as [|c s IH]; intros before; simpl; [done|].
  destruct (Ascii.eqb c sep) eqn:Hc.
  - intros [= <- <-]. apply Ascii.eqb_eq in Hc as ->. done.
  - destruct (split_once sep s) as [[b a]|]; [|done].
    intros [= <- <-]. destruct (IH b eq_refl) as [-> Hb]. simpl. by rewrite Hc, Hb.
Qed.

Section settings_descriptions.
Context {T : Type}.
Variable loaded_settings : gmap string (string * T).
Variable loaded_filter_settings : gmap string (gmap string (string * T)).

Lemma s_describe_cases (setting_name : string) :
  setting_name ≠ "" →
  (∀ description t, loaded_settings !! setting_name = Some (description, t) →
     s_describe loaded_settings loaded_filter_settings (Some setting_name) =
     description_reply setting_name description) ∧
  (∀ filter_name field_name,
     setting_name = filter_name +:+ "/" +:+ field_name →
     split_once "/" filter_name = None →
     loaded_settings !! setting_name = None →
     s_describe loaded_settings loaded_filter_settings (Some setting_name) =
     match loaded_filter_settings !! filter_name ≫= λ fields, fields !! field_name with
     | Some field => description_reply setting_name field.1
     | None => not_found_reply setting_name
     end) ∧
  (split_once "/" setting_name = None →
   loaded_settings !! setting_name = None →
   s_describe loaded_settings loaded_filter_settings (Some setting_name) =
   not_found_reply setting_name).
Proof.
  intros Hne. unfold s_describe. rewrite (not_given_Some _ Hne). simpl.
  split; [|split].
  - by intros description t ->.
  - intros filter_name field_name Heq Hno ->.
    assert (split_once "/" setting_name = Some (filter_name, field_name)) as ->.
    { rewrite Heq. by apply (split_once_append "/" filter_name field_name). }
    destruct (loaded_filter_settings !! filter_name) as [fields|]; simpl; [|done].
    by destruct (fields !! field_name).
  - by intros -> ->.
Qed.

(** X13: How [s_describe] resolves a name: a setting of that very name comes
    first, also when the name has a slash; otherwise the name is cut at its
    first slash into a filter name and a field of that filter; a name
    without a slash that is no setting is not found. *)
Theorem s_describe_resolution (setting_name : string) :
  setting_name ≠ "" →
  (∀ description t, loaded_settings !! setting_name = Some (description, t) →
     s_describe loaded_settings loaded_filter_settings (Some setting_name) =
     description_reply setting_name description) ∧
  (∀ filter_name field_name,
     setting_name = filter_name +:+ "/" +:+ field_name →
     split_once "/" filter_name = None →
     loaded_settings !! setting_name = None →
     s_describe loaded_settings loaded_filter_settings (Some setting_name) =
     match loaded_filter_settings !! filter_name ≫= λ fields, fields !! field_name with
     | Some field => description_reply setting_name field.1
     | None => not_found_reply setting_name
     end) ∧
  (split_once "/" setting_name = None →
   loaded_settings !! setting_name = None →
   s_describe loaded_settings loaded_filter_settings (Some setting_name) =
   not_found_reply setting_name).
Proof. apply s_describe_cases. Qed.

Lemma elem_of_settings_listing (l : list (string * gmap string (string * T)))
    (acc : list string) (name : string) :
  name ∈ foldl
           (λ settings_list '(filter_name, filter_settings),
              settings_list ++
              ((λ setting, filter_name +:+ "/" +:+ setting) <$> keys filter_settings))
           acc l ↔
  name ∈ acc ∨
  ∃ filter_name fields field_name,
    (filter_name, fields) ∈ l ∧ is_Some (fields !! field_name) ∧
    name = filter_name +:+ "/" +:+ field_name.
Proof.
  revert acc. induction l as [|[fn fs] l IH]; intros acc; simpl.
  - split; [by left|]. intros [? | (? & ? & ? & Hin & _)]; [done|].
    by apply elem_of_nil in Hin.
  - rewrite IH, elem_of_app, list_elem_of_fmap. split.
    + intros [[Hacc | (sn & -> & Hsn%elem_of_keys)] | (fn' & fs' & sn & Hin & Hsn & ->)].
      * by left.
      * right. exists fn, fs, sn. split; [apply list_elem_of_here | done].
      * right. exists fn', fs', sn. split; [by apply list_elem_of_further | done].
    + intros [Hacc | (fn' & fs' & sn & Hin & Hsn & ->)]; [by left; left|].
      apply elem_of_cons in Hin as [[= -> ->] | Hin].
      * left. right. exists sn. split; [done|]. by apply elem_of_keys.
      * right. by exists fn', fs', sn.
Qed.

(** X14: Every name that the listing of [s_describe] shows is described when it
    is given back, provided that no filter name has a slash in it (the
    empty name aside, which asks for the listing). *)
Theorem s_describe_listed_names :
  (∀ filter_name, is_Some (loaded_filter_settings !! filter_name) →
     split_once "/" filter_name = None) →
  ∃ names,
    s_describe loaded_settings loaded_filter_settings None = names_reply names ∧
    ∀ name, name ∈ names → name ≠ "" →
      ∃ description,
        s_describe loaded_settings loaded_filter_settings (Some name) =
        description_reply name description.
Proof.
  intros Hslash. eexists. split; [reflexivity|].
  intros name Hin Hne.
  destruct (s_describe_cases name Hne) as (Hplain & Hfield & _).
  destruct (loaded_settings !! name) as [[description t]|] eqn:Hl.
  { exists description. by apply (Hplain description t). }
  apply elem_of_settings_listing in Hin
    as [[x Hx]%elem_of_keys | (fn & fs & sn & Hfs%elem_of_map_to_list & [field Hsn] & ->)].
  { congruence. }
  exists field.1.
  rewrite (Hfield fn sn eq_refl); [|apply Hslash; by eexists | done].
  rewrite Hfs. simpl. by rewrite Hsn.
Qed.
End settings_descriptions.

Lemma s_describe_resolution_witness :
  let settings : gmap string (string * nat) := {["enabled" := ("whether it is on", 0%nat)]} in
  let fields : gmap string (gmap string (string * nat)) :=
    {["invite" := {["guild_id" := ("the server", 1%nat)]}]} in
  (∀ description t, settings !! "invite/guild_id" = Some (description, t) →
     s_describe settings fields (Some "invite/guild_id") =
     description_reply "invite/guild_id" description) ∧
  (∀ filter_name field_name,
     "invite/guild_id" = filter_name +:+ "/" +:+ field_name →
     split_once "/" filter_name = None →
     settings !! "invite/guild_id" = None →
     s_describe settings fields (Some "invite/guild_id") =
     match fields !! filter_name ≫= λ fields, fields !! field_name with
     | Some field => description_reply "invite/guild_id" field.1
     | None => not_found_reply "invite/guild_id"
     end) ∧
  (split_once "/" "invite/guild_id" = None →
   settings !! "invite/guild_id" = None →
   s_describe settings fields (Some "invite/guild_id") =
   not_found_reply "invite/guild_id").
Proof.
  apply (s_describe_resolution {["enabled" := ("whether it is on", 0%nat)]}
           {["invite" := {["guild_id" := ("the server", 1%nat)]}]} "invite/guild_id").
  discriminate.
Defined.

Lemma s_describe_listed_names_witness :
  ∃ names,
    s_describe (∅ : gmap string (string * nat))
      {["invite" := {["guild_id" := ("the server", 1%nat)]}]} None = names_reply names ∧
    ∀ name, name ∈ names → name ≠ "" →
      ∃ description,
        s_describe (∅ : gmap string (string * nat))
          {["invite" := {["guild_id" := ("the server", 1%nat)]}]} (Some name) =
        description_reply name description.
Proof.
  apply (s_describe_listed_names ∅ {["invite" := {["guild_id" := ("the server", 1%nat)]}]}).
  intros filter_name [fields Hf].
  apply lookup_singleton_Some in Hf as [<- _]. reflexivity.
Defined.

(** ** [_build_embed_from_dict] *)

Lemma length_string_app (s t : string) :
  String.length (s +:+ t) = (String.length s + String.length t)%nat.
Proof. induction s as [|c s IH]; simpl; [done|]. by rewrite IH. Qed.

Lemma length_take_chars (n : nat) (s : string) :
  String.length (take_chars n s) = (n `min` String.length s)%nat.
Proof.
  revert s. induction n as [|n IH]; intros [|c s]; simpl; try done. by rewrite IH.
Qed.

Lemma take_chars_prefix (n : nat) (s : string) : ∃ rest, s = take_chars n s +:+ rest.
Proof.
  revert s. induction n as [|n IH]; intros [|c s]; simpl; try by eexists.
  destruct (IH s) as [rest Hrest]. exists rest.
  change (String c s = String c (take_chars n s +:+ rest)). by f_equal.
Qed.

Section embed.
Variable str_other : json → string.

(** The text of a value before it is cut. *)
Let shown (value : json) : string :=
  match value with
  | JStr "" | JNull => "-"
  | _ => py_str str_other value
  end.

(** The field of one item. *)
Let field_of (setting : string) (value : json) : EmbedField :=
  let text :=
    if bool_decide (MAX_FIELD_SIZE < String.length (shown value))%nat
    then take_chars MAX_FIELD_SIZE (shown value) +:+ " [...]"
    else shown value in
  {| field_name := setting; field_value := text;
     field_inline := bool_decide (String.length text < MAX_INLINE_SIZE)%nat |}.

Lemma build_embed_loop (data : list (string * json)) (embed : list EmbedField) :
  foldl
    (λ embed '(setting, value),
       if startswith setting "_" then embed
       else
         let value :=
           match value with
           | JStr "" | JNull => "-"
           | _ => py_str str_other value
           end in
         let value :=
           if bool_decide (MAX_FIELD_SIZE < String.length value)%nat
           then take_chars MAX_FIELD_SIZE value +:+ " [...]"
           else value in
         embed ++
         [{| field_name := setting; field_value := value;
             field_inline := bool_decide (String.length value < MAX_INLINE_SIZE)%nat |}])
    embed data
  = embed ++
    omap (λ '(setting, value),
            if startswith setting "_" then None else Some (field_of setting value)) data.
Proof.
  revert embed. induction data as [|[setting value] data IH]; intros embed.
  - by rewrite app_nil_r.
  - cbn [foldl omap list_omap]. rewrite IH.
    destruct (startswith setting "_"); [done|]. by rewrite <- app_assoc.
Qed.

Lemma elem_of_build_embed (data : list (string * json)) (fld : EmbedField) :
  fld ∈ _build_embed_from_dict str_other data ↔
  ∃ setting value, (setting, value) ∈ data ∧ startswith setting "_" = false ∧
                   fld = field_of setting value.
Proof.
  unfold _build_embed_from_dict. rewrite build_embed_loop. simpl.
  rewrite list_elem_of_omap. split.
  - intros ([setting value] & Hin & Hf).
    destruct (startswith setting "_") eqn:Hs; [done|].
    injection Hf as <-. by exists setting, value.
  - intros (setting & value & Hin & Hs & ->). exists (setting, value).
    split; [done|]. by rewrite Hs.
Qed.

(** X15: No value of a field is longer than 1024 characters, the limit of the
    platform that the constant is chosen for; a field is inline exactly
    when its value is shorter than 50 characters; and no field has a name
    that starts with an underscore. *)
Theorem build_embed_fields_bounded (data : list (string * json)) :
  Forall
    (λ fld,
       (String.length (field_value fld) ≤ 1024)%nat ∧
       (field_inline fld = true ↔ (String.length (field_value fld) < 50)%nat) ∧
       startswith (field_name fld) "_" = false)
    (_build_embed_from_dict str_other data).
Proof.
  apply Forall_forall. intros fld (setting & value & _ & Hs & ->)%elem_of_build_embed.
  unfold field_of. cbn [field_value field_inline field_name].
  split; [|split; [|done]].
  - case_bool_decide as Hlong.
    + rewrite length_string_app, length_take_chars.
      change (String.length " [...]") with 6%nat. unfold MAX_FIELD_SIZE in *. lia.
    + unfold MAX_FIELD_SIZE in *. lia.
  - by rewrite bool_decide_eq_true.
Qed.

(** X16: The fields are those of the items whose name does not start with an
    underscore, in the order of the items; the value of a field is the
    text of the item ([-] for the empty string and for [None]) when that
    has at most 1018 characters, and otherwise its first 1018 characters
    followed by the placeholder, 1024 characters in all. *)
Theorem build_embed_fields_of_items (data : list (string * json)) :
  field_name <$> _build_embed_from_dict str_other data =
    filter (λ setting, startswith setting "_" = false) data.*1 ∧
  ∀ fld, fld ∈ _build_embed_from_dict str_other data →
    ∃ value text,
      (field_name fld, value) ∈ data ∧
      text = match value with
             | JStr "" | JNull => "-"
             | _ => py_str str_other value
             end ∧
      ((String.length text ≤ 1018)%nat → field_value fld = text) ∧
      ((1018 < String.length text)%nat →
       field_value fld = take_chars 1018 text +:+ " [...]" ∧
       String.length (field_value fld) = 1024%nat ∧
       ∃ rest, text = take_chars 1018 text +:+ rest).
Proof.
  split.
  - unfold _build_embed_from_dict. rewrite build_embed_loop. simpl.
    induction data as [|[setting value] data IH]; [done|].
    cbn [omap list_omap fmap list_fmap]. rewrite filter_cons.
    destruct (startswith setting "_") eqn:Hs.
    + rewrite decide_False by (simpl; congruence). exact IH.
    + rewrite decide_True by done. cbn [fmap list_fmap]. simpl. f_equal. exact IH.
  - intros fld (setting & value & Hin & Hs & ->)%elem_of_build_embed.
    exists value, (shown value). unfold field_of. cbn [field_value field_inline field_name].
    split; [done|]. split; [done|]. unfold MAX_FIELD_SIZE. split.
    + intros Hshort. by rewrite bool_decide_eq_false_2 by lia.
    + intros Hlong. rewrite bool_decide_eq_true_2 by done. split; [done|]. split.
      * rewrite length_string_app, length_take_chars.
        change (String.length " [...]") with 6%nat. lia.
      * apply take_chars_prefix.
Qed.
End embed.

(** ** [_resolve_list_type_and_name] *)

Lemma size_two_keys {A} (m : gmap ListType A) :
  is_Some (m !! DENY) → is_Some (m !! ALLOW) → (1 < size m)%nat.
Proof.
  intros [a Ha] Hb.
  rewrite <- (insert_id m DENY a Ha), <- insert_delete_eq.
  rewrite map_size_insert_None by apply lookup_delete_eq.
  assert (size (delete DENY m) ≠ 0%nat); [|lia].
  apply (map_size_ne_0_lookup_2 _ ALLOW). by rewrite lookup_delete_ne.
Qed.

(** X17: With the name of a list that is found: a given list type is handed
    back as it is, loaded in that list or not; without one, the only list
    type of the list is taken, the user is asked when the list has both,
    and a list with none makes the subscript raise an [IndexError].
    Without a name the user is asked for one, whatever the list type. *)
Theorem resolve_list_type_and_name_cases {V : Type} (self : Filtering V)
    (list_name : string) (filter_list : FilterList V) :
  _get_list_by_name self list_name = Ok filter_list →
  (∀ list_type,
     _resolve_list_type_and_name self (Some list_type) (Some list_name) =
     resolved_pair list_type filter_list) ∧
  (filter_lists filter_list = ∅ →
   _resolve_list_type_and_name self None (Some list_name) = raised_IndexError) ∧
  (∀ list_type,
     is_Some (filter_lists filter_list !! list_type) →
     (∀ other, other ≠ list_type → filter_lists filter_list !! other = None) →
     _resolve_list_type_and_name self None (Some list_name) =
     resolved_pair list_type filter_list) ∧
  (is_Some (filter_lists filter_list !! DENY) →
   is_Some (filter_lists filter_list !! ALLOW) →
   _resolve_list_type_and_name self None (Some list_name) = prompt_list_type) ∧
  (∀ list_type,
     _resolve_list_type_and_name self list_type None =
     prompt_list_name (keys (cog_filter_lists self))).
Proof.
  intros Hfound. unfold _resolve_list_type_and_name. rewrite Hfound.
  split; [done|]. split; [|split; [|split; [|done]]].
  - intros ->. rewrite map_size_empty. unfold keys. by rewrite map_to_list_empty.
  - intros list_type Hsome Hother.
    rewrite bool_decide_eq_false_2.
    + destruct (keys (filter_lists filter_list)) as [|first rest] eqn:Hkeys.
      * exfalso. destruct Hsome as [x Hx].
        assert (list_type ∈ keys (filter_lists filter_list)) as Hin
          by (apply elem_of_keys; by eexists).
        rewrite Hkeys in Hin. by apply elem_of_nil in Hin.
      * assert (first ∈ keys (filter_lists filter_list)) as Hin
          by (rewrite Hkeys; apply list_elem_of_here).
        apply elem_of_keys in Hin as [x Hx].
        destruct (decide (first = list_type)) as [-> | Hne]; [done|].
        rewrite (Hother first Hne) in Hx. done.
    + intros Hsize. destruct list_type.
      * assert (filter_lists filter_list !! ALLOW = None) as Hn by by apply Hother.
        rewrite <- (delete_id _ _ Hn) in Hsize.
        destruct Hsome as [a Ha].
        rewrite <- (insert_id _ DENY a Ha), <- insert_delete_eq in Hsize.
        rewrite map_size_delete_None in Hsize
          by (rewrite lookup_insert_ne by done; by rewrite lookup_delete_ne).
        rewrite map_size_insert_None in Hsize by apply lookup_delete_eq.
        assert (size (delete DENY (filter_lists filter_list)) = 0%nat); [|lia].
        apply map_size_empty_iff, map_eq. intros [].
        -- by rewrite lookup_delete_eq, lookup_empty.
        -- by rewrite lookup_delete_ne, lookup_empty.
      * assert (filter_lists filter_list !! DENY = None) as Hn by by apply Hother.
        destruct Hsome as [a Ha].
        rewrite <- (insert_id _ ALLOW a Ha), <- insert_delete_eq in Hsize.
        rewrite map_size_insert_None in Hsize by apply lookup_delete_eq.
        assert (size (delete ALLOW (filter_lists filter_list)) = 0%nat); [|lia].
        apply map_size_empty_iff, map_eq. intros [].
        -- by rewrite lookup_delete_ne, lookup_empty.
        -- by rewrite lookup_delete_eq, lookup_empty.
  - intros Hd Ha. by rewrite bool_decide_eq_true_2 by by apply size_two_keys.
Qed.

Lemma resolve_list_type_and_name_cases_witness :
  (∀ list_type,
     _resolve_list_type_and_name cog_token (Some list_type) (Some "tokens") =
     resolved_pair list_type (FilterList_init TokenFilter)) ∧
  (filter_lists (FilterList_init TokenFilter) = ∅ →
   _resolve_list_type_and_name cog_token None (Some "tokens") = raised_IndexError) ∧
  (∀ list_type,
     is_Some (filter_lists (FilterList_init TokenFilter) !! list_type) →
     (∀ other, other ≠ list_type →
        filter_lists (FilterList_init TokenFilter) !! other = None) →
     _resolve_list_type_and_name cog_token None (Some "tokens") =
     resolved_pair list_type (FilterList_init TokenFilter)) ∧
  (is_Some (filter_lists (FilterList_init TokenFilter) !! DENY) →
   is_Some (filter_lists (FilterList_init TokenFilter) !! ALLOW) →
   _resolve_list_type_and_name cog_token None (Some "tokens") = prompt_list_type) ∧
  (∀ list_type,
     _resolve_list_type_and_name cog_token list_type None =
     prompt_list_name (keys (cog_filter_lists cog_token))).
Proof. apply (resolve_list_type_and_name_cases cog_token "tokens"). reflexivity. Defined.

(** ** The command [f_add] *)

Lemma get_filter_by_id_None {V : Type} (self : Filtering V) (id_ : Z) :
  _get_filter_by_id self id_ = None ↔
  ∀ name filter_list list_type,
    cog_filter_lists self !! name = Some filter_list →
    stored_filter filter_list list_type id_ = None.
Proof.
  unfold _get_filter_by_id, stored_filter. rewrite first_some_None. split.
  - intros Hnone name fl lt Hfl.
    assert (fl ∈ values (cog_filter_lists self)) as Hin by (apply elem_of_values; eauto).
    specialize (Hnone fl Hin). rewrite first_some_None in Hnone.
    destruct (filter_lists fl !! lt) as [sub|] eqn:Hsub; [|done]. simpl.
    assert ((lt, sub) ∈ map_to_list (filter_lists fl)) as Hin'
      by by apply elem_of_map_to_list.
    specialize (Hnone _ Hin'). simpl in Hnone. by destruct (sub !! id_).
  - intros Hall fl [name Hfl]%elem_of_values. rewrite first_some_None.
    intros [lt sub] Hin%elem_of_map_to_list.
    specialize (Hall name fl lt Hfl). rewrite Hin in Hall. simpl in Hall.
    by rewrite Hall.
Qed.

Lemma found_name_lookup {V : Type} (self : Filtering V) list_name filter_list :
  _get_list_by_name self list_name = Ok filter_list →
  cog_filter_lists self !! found_name self list_name = Some filter_list.
Proof.
  unfold _get_list_by_name, found_name.
  destruct (cog_filter_lists self !! list_name) as [fl|] eqn:Hl; [by intros [= ->]|].
  destruct (endswith list_name "s"); [|done].
  destruct (cog_filter_lists self !! drop_last list_name); [|done].
  by intros [= ->].
Qed.

Section f_add_properties.
Context {V : Type}.
Variable api_post : Z → string → option string → FilterData.
Implicit Types (self : Filtering V) (filter_list : FilterList V).

(** X18: The command says that the filter was added also when the constructor
    rejected the record with a [TypeError]: the warning is logged, nothing
    is stored and the cog is as it was. *)
Theorem f_add_reports_skipped_record self list_type list_name content description
    filter_list list_id msg key :
  _get_list_by_name self list_name = Ok filter_list →
  list_ids filter_list !! list_type = Some list_id →
  filter_type filter_list (api_post list_id content description) = Raise (TypeError msg) →
  fd_id (api_post list_id content description) = Some key →
  f_add api_post (Some list_type) (Some list_name) content description self =
  (sent_added key, self, [warning_exception (TypeError msg)]).
Proof.
  intros Hfound Hid Hty Hkey. unfold f_add, _resolve_list_type_and_name.
  rewrite Hfound, Hid. unfold on_filter_list. simpl.
  rewrite (found_name_lookup _ _ _ Hfound), add_filter_run, Hty, Hkey.
  rewrite insert_id by by apply found_name_lookup. by destruct self.
Qed.

(** X19: A record that the constructor takes, for a list type that is loaded:
    the command answers with the id, the list is found under the same name
    as before, holds the filter under that id, and the lookup by that id
    finds a filter. *)
Theorem f_add_stores self list_type list_name content description
    filter_list list_id new_filter sublist key :
  _get_list_by_name self list_name = Ok filter_list →
  list_ids filter_list !! list_type = Some list_id →
  filter_type filter_list (api_post list_id content description) = Ok new_filter →
  filter_lists filter_list !! list_type = Some sublist →
  fd_id (api_post list_id content description) = Some key →
  ∃ self' filter_list',
    f_add api_post (Some list_type) (Some list_name) content description self =
      (sent_added key, self', []) ∧
    _get_list_by_name self' list_name = Ok filter_list' ∧
    stored_filter filter_list' list_type key = Some new_filter ∧
    is_Some (_get_filter_by_id self' key) ∧
    cog_subscriptions self' = cog_subscriptions self.
Proof.
  intros Hfound Hid Hty Hsub Hkey. unfold f_add, _resolve_list_type_and_name.
  rewrite Hfound, Hid. unfold on_filter_list. simpl.
  pose proof (found_name_lookup _ _ _ Hfound) as Hlook.
  rewrite Hlook, add_filter_run, Hty, Hsub, Hkey.
  eexists _, _. split; [reflexivity|]. simpl.
  assert (∀ fl', _get_list_by_name
            {| cog_filter_lists := <[found_name self list_name := fl']> (cog_filter_lists self);
               cog_subscriptions := cog_subscriptions self |} list_name = Ok fl') as Hget.
  { intros fl'. revert Hlook. unfold _get_list_by_name, found_name. simpl.
    destruct (cog_filter_lists self !! list_name) as [fl|] eqn:Hl.
    - intros _. by rewrite lookup_insert_eq.
    - intros Hd.
      assert (list_name ≠ drop_last list_name) as Hne by (intros Heq; congruence).
      rewrite lookup_insert_ne by done. rewrite Hl.
      revert Hfound. unfold _get_list_by_name. rewrite Hl.
      destruct (endswith list_name "s"); [|done].
      intros _. by rewrite lookup_insert_eq. }
  split; [apply Hget|]. split; [|split; [|done]].
  - unfold stored_filter. simpl. rewrite lookup_insert_eq. simpl. by rewrite lookup_insert_eq.
  - apply not_eq_None_Some. intros Hnone.
    rewrite get_filter_by_id_None in Hnone.
    specialize (Hnone (found_name self list_name) _ list_type (lookup_insert_eq _ _ _)).
    unfold stored_filter in Hnone. simpl in Hnone.
    rewrite lookup_insert_eq in Hnone. simpl in Hnone. by rewrite lookup_insert_eq in Hnone.
Qed.

(** X20: A list type that the list has no id for makes the command raise a
    [KeyError] and leave the cog as it was, whatever the content. *)
Theorem f_add_unloaded_list_type self list_type list_name content description filter_list :
  _get_list_by_name self list_name = Ok filter_list →
  list_ids filter_list !! list_type = None →
  f_add api_post (Some list_type) (Some list_name) content description self =
  (raised_exn (KeyError "list_type"), self, []).
Proof.
  intros Hfound Hid. unfold f_add, _resolve_list_type_and_name. by rewrite Hfound, Hid.
Qed.
End f_add_properties.

Lemma f_add_reports_skipped_record_witness :
  f_add api_number (Some DENY) (Some "tokens") "spam" None cog_loaded =
  (sent_added 9, cog_loaded, [warning_exception (TypeError "content is not a string")]).
Proof.
  apply (f_add_reports_skipped_record api_number cog_loaded DENY "tokens" "spam" None
           (loaded_list TokenFilter) 5 "content is not a string" 9);
    vm_compute; reflexivity.
Defined.

Lemma f_add_stores_witness :
  ∃ self' filter_list',
    f_add api_echo (Some DENY) (Some "token") "eggs" None cog_loaded =
      (sent_added 9, self', []) ∧
    _get_list_by_name self' "token" = Ok filter_list' ∧
    stored_filter filter_list' DENY 9 =
      Some {| f_id := 9; f_content := "eggs"; f_description := None;
              f_actions := None; f_validations := None;
              triggered_on := λ ctx,
                match String.index 0 "eggs" (ctx_content ctx) with
                | Some _ => true
                | None => false
                end |} ∧
    is_Some (_get_filter_by_id self' 9) ∧
    cog_subscriptions self' = cog_subscriptions cog_loaded.
Proof.
  apply (f_add_stores api_echo cog_loaded DENY "token" "eggs" None
           (loaded_list TokenFilter) 5 _ {[1 := filter_with 1 None]} 9);
    vm_compute; reflexivity.
Defined.

Lemma f_add_unloaded_list_type_witness :
  f_add api_echo (Some ALLOW) (Some "token") "eggs" None cog_loaded =
  (raised_exn (KeyError "list_type"), cog_loaded, []).
Proof.
  apply (f_add_unloaded_list_type api_echo cog_loaded ALLOW "token" "eggs" None
           (loaded_list TokenFilter)); vm_compute; reflexivity.
Defined.

(** ** Subscribing and resolving together *)

Section heard.
Context {V : Type} `{ActionEntry V}.
Variable actions_for : string → FilterContext → option (gmap string V) * option string.

Lemma resolve_action_closed_form (self : Filtering V) (ctx : FilterContext) :
  _resolve_action actions_for self ctx =
  ((reduce ActionSettings_or
      (omap (λ fl, if truthy_map (actions_for fl ctx).1 then (actions_for fl ctx).1 else None)
         (default [] (cog_subscriptions self !! ctx_event ctx))),
    foldl (λ messages fl,
             if truthy_str (actions_for fl ctx).2
             then <[fl := default "" (actions_for fl ctx).2]> messages else messages)
      ∅ (default [] (cog_subscriptions self !! ctx_event ctx))),
   {| cog_filter_lists := cog_filter_lists self;
      cog_subscriptions := (defaultdict_getitem (cog_subscriptions self) (ctx_event ctx)).2 |}).
Proof.
  unfold _resolve_action, defaultdict_getitem.
  destruct (cog_subscriptions self !! ctx_event ctx) as [l|]; simpl; [|done].
  rewrite resolve_loop. simpl. by case_bool_decide as Hl; [|rewrite Hl].
Qed.

Lemma resolve_action_message (self : Filtering V) (ctx : FilterContext) filter_list :
  (_resolve_action actions_for self ctx).1.2 !! filter_list =
  if bool_decide (filter_list ∈ default [] (cog_subscriptions self !! ctx_event ctx)) &&
     truthy_str (actions_for filter_list ctx).2
  then (actions_for filter_list ctx).2 else None.
Proof.
  rewrite resolve_action_closed_form. simpl.
  by rewrite lookup_foldl_noted, lookup_empty.
Qed.

(** X21: A filter list that was subscribed to the event of a context is asked
    when the context is resolved: its message, if not empty, is in the
    mapping and its actions, if any, make the result not [None]; and the
    lists subscribed before keep their messages. *)
Theorem subscribed_list_is_heard (self : Filtering V) (filter_list : string)
    (events : list Event) (ctx : FilterContext) :
  ctx_event ctx ∈ events →
  (∀ msg, (actions_for filter_list ctx).2 = Some msg → msg ≠ "" →
     (_resolve_action actions_for (subscribe filter_list events self) ctx).1.2
       !! filter_list = Some msg) ∧
  (truthy_map (actions_for filter_list ctx).1 = true →
   is_Some (_resolve_action actions_for (subscribe filter_list events self) ctx).1.1) ∧
  (∀ other msg,
     (_resolve_action actions_for self ctx).1.2 !! other = Some msg →
     (_resolve_action actions_for (subscribe filter_list events self) ctx).1.2 !! other
       = Some msg).
Proof.
  intros Hev.
  assert (filter_list ∈
            default [] (cog_subscriptions (subscribe filter_list events self) !! ctx_event ctx))
    as Hin.
  { rewrite lookup_subscribe. case_bool_decide as Hd.
    - apply elem_of_app. right. apply list_elem_of_here.
    - destruct (decide (filter_list ∈
                          default [] (cog_subscriptions self !! ctx_event ctx))); tauto. }
  split; [|split].
  - intros msg Hmsg Hne. rewrite resolve_action_message.
    rewrite bool_decide_eq_true_2 by done. rewrite Hmsg. simpl.
    by rewrite bool_decide_eq_true_2.
  - intros Htruthy. rewrite resolve_action_closed_form. simpl.
    destruct (actions_for filter_list ctx).1 as [a|] eqn:Ha; [|done].
    assert (a ∈ omap (λ fl, if truthy_map (actions_for fl ctx).1
                            then (actions_for fl ctx).1 else None)
                  (default []
                     (cog_subscriptions (subscribe filter_list events self) !! ctx_event ctx)))
      as Ha'.
    { apply list_elem_of_omap. exists filter_list. split; [done|]. by rewrite Ha, Htruthy. }
    destruct (omap _ _) as [|x l]; [by apply elem_of_nil in Ha'|]. by eexists.
  - intros other msg. rewrite !resolve_action_message.
    destruct (truthy_str (actions_for other ctx).2); [|by rewrite !andb_false_r].
    rewrite !andb_true_r. case_bool_decide as Hold; [|done].
    intros Hmsg. rewrite bool_decide_eq_true_2; [done|].
    by apply (elem_of_prefix _ _ _ Hold), subscribe_prefix.
Qed.
End heard.

Lemma subscribed_list_is_heard_witness :
  let actions_for := λ (filter_list : string) (ctx : FilterContext),
    (Some ({["delete_messages" := true]} : gmap string bool), Some "#1 (`spam`)") in
  (∀ msg, (actions_for "token" ctx_general).2 = Some msg → msg ≠ "" →
     (_resolve_action actions_for (subscribe "token" [MESSAGE] Filtering_init) ctx_general).1.2
       !! "token" = Some msg) ∧
  (truthy_map (actions_for "token" ctx_general).1 = true →
   is_Some
     (_resolve_action actions_for (subscribe "token" [MESSAGE] Filtering_init) ctx_general).1.1)
  ∧
  (∀ other msg,
     (_resolve_action actions_for Filtering_init ctx_general).1.2 !! other = Some msg →
     (_resolve_action actions_for (subscribe "token" [MESSAGE] Filtering_init) ctx_general).1.2
       !! other = Some msg).
Proof.
  apply (subscribed_list_is_heard
           (λ (filter_list : string) (ctx : FilterContext),
              (Some ({["delete_messages" := true]} : gmap string bool), Some "#1 (`spam`)"))
           Filtering_init "token" [MESSAGE] ctx_general).
  apply list_elem_of_here.
Defined.

(** ** Loading the cog: [cog_load] *)

Lemma bind_assoc_run {S A B C} (m : M S A) (k : A → M S B) (h : B → M S C) (s : S) :
  bind (bind m k) h s = bind m (λ a, bind (k a) h) s.
Proof.
  unfold bind. destruct (m s) as [[[a|e] s1] l1]; [|done].
  destruct (k a s1) as [[[b|e] s2] l2]; [|done].
  destruct (h b s2) as [[r s3] l3]. by rewrite app_assoc.
Qed.

Lemma bind_ext_at {S A B} (m m' : M S A) (k : A → M S B) (s : S) :
  m s = m' s → bind m k s = bind m' k s.
Proof. unfold bind. by intros ->. Qed.

Lemma let_triple_eta {A B C} (t : A * B * C) : (let '(a, b, c) := t in (a, b, c)) = t.
Proof. by destruct t as [[a b] c]. Qed.

Lemma warned_names_app (l1 l2 : list log_record) :
  warned_names (l1 ++ l2) = warned_names l1 ++ warned_names l2.
Proof. apply omap_app. Qed.

Lemma logged_exceptions_app (l1 l2 : list log_record) :
  logged_exceptions (l1 ++ l2) = logged_exceptions l1 ++ logged_exceptions l2.
Proof. apply omap_app. Qed.

Section cog_loading.
Context {V : Type}.
Variable filter_list_types : gmap string (FilterListClass V).
Variable create_settings : create_settings_t V.
Implicit Types (self : Filtering V) (already_warned : gset string).

(** The filter lists log exceptions only. *)
Lemma add_filter_warns_nothing filter_data list_type (filter_list : FilterList V) :
  warned_names (add_filter filter_data list_type filter_list).2 = [].
Proof.
  rewrite add_filter_run.
  destruct (filter_type filter_list filter_data) as [new_filter | []]; try done.
  destruct (filter_lists filter_list !! list_type); [|done].
  by destruct (fd_id filter_data).
Qed.

Lemma for_each_add_filter_warns_nothing (filters : list FilterData) list_type
    (filter_list : FilterList V) :
  warned_names
    (for_each filters (λ filter_data, add_filter filter_data list_type) filter_list).2 = [].
Proof.
  revert filter_list. induction filters as [|fd filters IH]; intros filter_list; [done|].
  simpl. unfold bind.
  pose proof (add_filter_warns_nothing fd list_type filter_list) as H1.
  destruct (add_filter fd list_type filter_list) as [[[[]|e] s1] l1]; simpl in *; [|done].
  specialize (IH s1). destruct (for_each filters _ s1) as [[r s2] l2]. simpl in *.
  by rewrite warned_names_app, H1, IH.
Qed.

Lemma add_list_warns_nothing (list_data : ListData) (filter_list : FilterList V) :
  warned_names (add_list create_settings list_data filter_list).2 = [].
Proof.
  rewrite add_list_run.
  destruct (create_settings (ld_settings list_data) true) as [[actions validations] | e];
    [|done].
  destruct (ListType_of_value (ld_list_type list_data)); [|done].
  apply for_each_add_filter_warns_nothing.
Qed.

(** What the loop does with a record whose name has a class or a list. *)
Let load_record (raw_filter_list : ListData) : M (Filtering V) unit :=
  λ self,
    if bool_decide (ld_name raw_filter_list ∉ dom (cog_filter_lists self)) then
      match filter_list_types !! ld_name raw_filter_list with
      | Some cls =>
          bind (instantiate (ld_name raw_filter_list) cls)
            (λ _, on_filter_list (ld_name raw_filter_list)
                    (add_list create_settings raw_filter_list)) self
      | None => ret tt self
      end
    else
      on_filter_list (ld_name raw_filter_list) (add_list create_settings raw_filter_list) self.

Lemma cog_load_loop_known raw_filter_list rest already_warned self :
  ld_name raw_filter_list ∈ dom filter_list_types ∪ dom (cog_filter_lists self) →
  cog_load_loop filter_list_types create_settings (raw_filter_list :: rest)
    already_warned self =
  bind (load_record raw_filter_list)
    (λ _, cog_load_loop filter_list_types create_settings rest already_warned) self.
Proof.
  intros Hknown. cbn [cog_load_loop].
  unfold bind at 1, get. cbn beta iota. rewrite let_triple_eta.
  case_bool_decide as Hnew.
  - destruct (filter_list_types !! ld_name raw_filter_list) as [cls|] eqn:Hcls.
    + rewrite <- bind_assoc_run. apply bind_ext_at. unfold load_record.
      by rewrite (bool_decide_eq_true_2 _ Hnew), Hcls.
    + exfalso. apply elem_of_union in Hknown as [Hin%elem_of_dom | Hin]; [|done].
      rewrite Hcls in Hin. by destruct Hin.
  - apply bind_ext_at. unfold load_record.
    rewrite (bool_decide_eq_false_2
               (ld_name raw_filter_list ∉ dom (cog_filter_lists self))); [done|].
    intros Hnot. by apply Hnot.
Qed.

Lemma cog_load_loop_unknown raw_filter_list rest already_warned self :
  ld_name raw_filter_list ∉ dom filter_list_types ∪ dom (cog_filter_lists self) →
  cog_load_loop filter_list_types create_settings (raw_filter_list :: rest)
    already_warned self =
  if bool_decide (ld_name raw_filter_list ∉ already_warned) then
    let '(r, s, l) :=
      cog_load_loop filter_list_types create_settings rest
        ({[ld_name raw_filter_list]} ∪ already_warned) self in
    (r, s, warning_no_matching_class (ld_name raw_filter_list) :: l)
  else cog_load_loop filter_list_types create_settings rest already_warned self.
Proof.
  intros Hunknown. apply not_elem_of_union in Hunknown as [Hcls%not_elem_of_dom Hnew].
  cbn [cog_load_loop]. unfold bind at 1, get. cbn beta iota. rewrite let_triple_eta.
  rewrite bool_decide_eq_true_2 by done. rewrite Hcls.
  case_bool_decide; [|done].
  unfold bind, log_warning.
  by destruct (cog_load_loop _ _ rest _ self) as [[r s] l].
Qed.

(** Loading a record of a known name adds at most that name to the lists,
    removes none, touches no subscription that was there and warns of no
    name. *)
Lemma load_record_names raw_filter_list self :
  ld_name raw_filter_list ∈ dom filter_list_types ∪ dom (cog_filter_lists self) →
  dom filter_list_types ∪ dom (cog_filter_lists (load_record raw_filter_list self).1.2) =
    dom filter_list_types ∪ dom (cog_filter_lists self) ∧
  dom (cog_filter_lists self) ⊆ dom (cog_filter_lists (load_record raw_filter_list self).1.2) ∧
  warned_names (load_record raw_filter_list self).2 = [].
Proof.
  intros Hknown. unfold load_record.
  assert (∀ s : Filtering V, ld_name raw_filter_list ∈ dom (cog_filter_lists s) →
    dom (cog_filter_lists
           (on_filter_list (ld_name raw_filter_list)
              (add_list create_settings raw_filter_list) s).1.2) = dom (cog_filter_lists s) ∧
    warned_names
      (on_filter_list (ld_name raw_filter_list)
         (add_list create_settings raw_filter_list) s).2 = []) as Hon.
  { intros s [fl Hfl]%elem_of_dom. unfold on_filter_list. rewrite Hfl.
    pose proof (add_list_warns_nothing raw_filter_list fl) as Hw.
    destruct (add_list create_settings raw_filter_list fl) as [[r fl'] l]. simpl in *.
    split; [|done]. rewrite dom_insert_L.
    assert (ld_name raw_filter_list ∈ dom (cog_filter_lists s))
      by (apply elem_of_dom; by eexists).
    set_solver. }
  case_bool_decide as Hnew.
  - destruct (filter_list_types !! ld_name raw_filter_list) as [cls|] eqn:Hcls.
    + unfold bind, instantiate. simpl.
      set (s1 := {| cog_filter_lists := _; cog_subscriptions := _ |}).
      assert (dom (cog_filter_lists s1) =
              {[ld_name raw_filter_list]} ∪ dom (cog_filter_lists self)) as Hdom.
      { unfold s1. simpl. by rewrite dom_insert_L, subscribe_filter_lists. }
      destruct (Hon s1) as [Hd Hw]; [rewrite Hdom; set_solver|].
      destruct (on_filter_list _ _ s1) as [[r s2] l]. simpl in *.
      rewrite Hd, Hdom.
      assert (ld_name raw_filter_list ∈ dom filter_list_types)
        by (apply elem_of_dom; by eexists).
      split; [set_solver|]. split; [set_solver | done].
    + exfalso. apply elem_of_union in Hknown as [Hin%elem_of_dom | Hin]; [|done].
      rewrite Hcls in Hin. by destruct Hin.
  - destruct (Hon self) as [Hd Hw].
    { destruct (decide (ld_name raw_filter_list ∈ dom (cog_filter_lists self))); tauto. }
    rewrite Hd. by split; [|split].
Qed.
(** The loop on all records against the loop on the records of known
    names. *)
Lemma cog_load_loop_skips (raw_filter_lists : list ListData) :
  ∀ self already_warned already_warned' (known : gset string),
    known = dom filter_list_types ∪ dom (cog_filter_lists self) →
    let run :=
      cog_load_loop filter_list_types create_settings raw_filter_lists already_warned self in
    let run' :=
      cog_load_loop filter_list_types create_settings
        (filter (λ d, ld_name d ∈ known) raw_filter_lists) already_warned' self in
    run.1 = run'.1 ∧
    logged_exceptions run.2 = logged_exceptions run'.2 ∧
    warned_names run'.2 = [] ∧
    NoDup (warned_names run.2) ∧
    (∀ n, n ∈ warned_names run.2 →
       (n ∉ already_warned) ∧ (n ∉ known) ∧ n ∈ (ld_name <$> raw_filter_lists)) ∧
    (run.1.1 = Ok tt →
     ∀ d, d ∈ raw_filter_lists → ld_name d ∉ known →
       ld_name d ∈ already_warned ∨ ld_name d ∈ warned_names run.2) ∧
    dom filter_list_types ∪ dom (cog_filter_lists run.1.2) = known ∧
    dom (cog_filter_lists self) ⊆ dom (cog_filter_lists run.1.2).
Proof.
  induction raw_filter_lists as [|d rest IH]; intros self aw aw' known Hk.
  - simpl. split; [done|]. split; [done|]. split; [done|].
    split; [apply NoDup_nil_2|].
    split; [intros n Hn; by apply elem_of_nil in Hn|].
    split; [intros _ d Hd; by apply elem_of_nil in Hd|].
    by rewrite Hk.
  - rewrite filter_cons. destruct (decide (ld_name d ∈ known)) as [Hknown | Hunknown].
    + assert (ld_name d ∈ dom filter_list_types ∪ dom (cog_filter_lists self)) as Hknown'
        by by rewrite <- Hk.
      rewrite !cog_load_loop_known by done. unfold bind.
      destruct (load_record_names d self Hknown') as (Hd1 & Hd2 & Hw).
      destruct (load_record d self) as [[[[]|e] s1] l1]; simpl in *.
      * assert (known = dom filter_list_types ∪ dom (cog_filter_lists s1)) as Hk1
          by by rewrite Hd1.
        specialize (IH s1 aw aw' known Hk1).
        destruct (cog_load_loop _ _ rest aw s1) as [[r s] l].
        destruct (cog_load_loop _ _ (filter _ rest) aw' s1) as [[r' s'] l']. simpl in *.
        destruct IH as (I1 & I2 & I3 & I4 & I5 & I6 & I7 & I8).
        rewrite !logged_exceptions_app, !warned_names_app, Hw, I3. simpl.
        split; [done|]. split; [by rewrite I2|]. split; [done|]. split; [done|].
        split.
        { intros n Hn. destruct (I5 n Hn) as (? & ? & ?).
          split; [done|]. split; [done|]. rewrite ?fmap_cons. by apply list_elem_of_further. }
        split.
        { intros Hok d' [-> | Hd']%elem_of_cons Hun; [done|]. by apply I6. }
        split; [done|]. set_solver.
      * rewrite Hw. split; [done|]. split; [done|]. split; [done|].
        split; [apply NoDup_nil_2|].
        split; [intros n Hn; by apply elem_of_nil in Hn|].
        split; [done|]. split; [by rewrite Hd1 | done].
    + assert (ld_name d ∉ dom filter_list_types ∪ dom (cog_filter_lists self)) as Hunknown'
        by by rewrite <- Hk.
      rewrite cog_load_loop_unknown by done.
      case_bool_decide as Haw.
      * specialize (IH self ({[ld_name d]} ∪ aw) aw' known Hk).
        destruct (cog_load_loop _ _ rest ({[ld_name d]} ∪ aw) self) as [[r s] l].
        destruct (cog_load_loop _ _ (filter _ rest) aw' self) as [[r' s'] l']. simpl in *.
        destruct IH as (I1 & I2 & I3 & I4 & I5 & I6 & I7 & I8).
        split; [done|]. split; [done|]. split; [done|].
        split.
        { apply NoDup_cons. split; [|done].
          intros Hin. destruct (I5 _ Hin) as (Hn & _). set_solver. }
        split.
        { intros n [-> | Hn]%elem_of_cons.
          - split; [done|]. split; [done|]. rewrite ?fmap_cons. apply list_elem_of_here.
          - destruct (I5 n Hn) as (Hn1 & Hn2 & Hn3).
            split; [set_solver|]. split; [done|].
            rewrite ?fmap_cons. by apply list_elem_of_further. }
        split.
        { intros Hok d' [-> | Hd']%elem_of_cons Hun.
          - right. apply list_elem_of_here.
          - destruct (I6 Hok d' Hd' Hun) as [Hin | Hin].
            + apply elem_of_union in Hin as [->%elem_of_singleton | Hin].
              * right. apply list_elem_of_here.
              * by left.
            + right. by apply list_elem_of_further. }
        done.
      * specialize (IH self aw aw' known Hk).
        destruct (cog_load_loop _ _ rest aw self) as [[r s] l].
        destruct (cog_load_loop _ _ (filter _ rest) aw' self) as [[r' s'] l']. simpl in *.
        destruct IH as (I1 & I2 & I3 & I4 & I5 & I6 & I7 & I8).
        split; [done|]. split; [done|]. split; [done|]. split; [done|].
        split.
        { intros n Hn. destruct (I5 n Hn) as (Hn1 & Hn2 & Hn3).
          split; [done|]. split; [done|]. rewrite ?fmap_cons. by apply list_elem_of_further. }
        split.
        { intros Hok d' [-> | Hd']%elem_of_cons Hun; [|by apply I6].
          left. destruct (decide (ld_name d ∈ aw)); tauto. }
        done.
Qed.
End cog_loading.



(** The load of the three records of the example: one warning for the two
    records of [invite], and the list [token] holds filter 1. *)
Lemma cog_load_fetched_records :
  let run := cog_load token_classes create_empty_settings fetched_records Filtering_init in
  run.1.1 = Ok tt ∧
  run.2 = [warning_no_matching_class "invite"] ∧
  (cog_filter_lists run.1.2 !! "invite") = None ∧
  (f_content <$> (cog_filter_lists run.1.2 !! "token" ≫= λ filter_list,
                   stored_filter filter_list DENY 1)) = Some "spam".
Proof. vm_compute. repeat split; reflexivity. Qed.

(** X22: Records whose name has neither a class nor a list change nothing but
    the warnings: the load ends as the load of the other records does, in
    the same state, with the same result and the same exceptions logged,
    and the other records cause no warning of a missing class. *)
Theorem cog_load_skips_unknown_names {V : Type}
    (filter_list_types : gmap string (FilterListClass V))
    (create_settings : create_settings_t V)
    (raw_filter_lists : list ListData) (self : Filtering V) :
  (cog_load filter_list_types create_settings raw_filter_lists self).1 =
  (cog_load filter_list_types create_settings
     (filter (λ d, ld_name d ∈ dom filter_list_types ∪ dom (cog_filter_lists self))
        raw_filter_lists) self).1 ∧
  logged_exceptions (cog_load filter_list_types create_settings raw_filter_lists self).2 =
  logged_exceptions
    (cog_load filter_list_types create_settings
       (filter (λ d, ld_name d ∈ dom filter_list_types ∪ dom (cog_filter_lists self))
          raw_filter_lists) self).2 ∧
  warned_names
    (cog_load filter_list_types create_settings
       (filter (λ d, ld_name d ∈ dom filter_list_types ∪ dom (cog_filter_lists self))
          raw_filter_lists) self).2 = [].
Proof.
  unfold cog_load.
  destruct (cog_load_loop_skips filter_list_types create_settings raw_filter_lists
              self ∅ ∅ _ eq_refl) as (H1 & H2 & H3 & _).
  done.
Qed.

(** X23: No name is warned about twice in one load; a name that is warned about
    is the name of a record and has neither a class nor a list; and when
    the load returns normally every such name of a record was warned
    about. *)
Theorem cog_load_warns_once {V : Type}
    (filter_list_types : gmap string (FilterListClass V))
    (create_settings : create_settings_t V)
    (raw_filter_lists : list ListData) (self : Filtering V) :
  NoDup (warned_names (cog_load filter_list_types create_settings raw_filter_lists self).2) ∧
  (∀ n, n ∈ warned_names
              (cog_load filter_list_types create_settings raw_filter_lists self).2 →
     (n ∉ dom filter_list_types) ∧ (n ∉ dom (cog_filter_lists self)) ∧
     n ∈ (ld_name <$> raw_filter_lists)) ∧
  ((cog_load filter_list_types create_settings raw_filter_lists self).1.1 = Ok tt →
   ∀ d, d ∈ raw_filter_lists →
     ld_name d ∉ dom filter_list_types → ld_name d ∉ dom (cog_filter_lists self) →
     ld_name d ∈ warned_names
                   (cog_load filter_list_types create_settings raw_filter_lists self).2).
Proof.
  unfold cog_load.
  destruct (cog_load_loop_skips filter_list_types create_settings raw_filter_lists
              self ∅ ∅ _ eq_refl) as (_ & _ & _ & H4 & H5 & H6 & _).
  split; [done|]. split.
  - intros n Hn. destruct (H5 n Hn) as (_ & Hk & Hin).
    apply not_elem_of_union in Hk as [? ?]. done.
  - intros Hok d Hd Hc Hl. destruct (H6 Hok d Hd) as [Hin | Hin]; [|by apply elem_of_empty in Hin|done].
    by apply not_elem_of_union.
Qed.

(** X24: A load removes no filter list from the cog, and the lists it adds are
    under names that have a class. *)
Theorem cog_load_names {V : Type}
    (filter_list_types : gmap string (FilterListClass V))
    (create_settings : create_settings_t V)
    (raw_filter_lists : list ListData) (self : Filtering V) :
  dom (cog_filter_lists self) ⊆
    dom (cog_filter_lists
           (cog_load filter_list_types create_settings raw_filter_lists self).1.2) ∧
  dom (cog_filter_lists
         (cog_load filter_list_types create_settings raw_filter_lists self).1.2) ⊆
    dom filter_list_types ∪ dom (cog_filter_lists self).
Proof.
  unfold cog_load.
  destruct (cog_load_loop_skips filter_list_types create_settings raw_filter_lists
              self ∅ ∅ _ eq_refl) as (_ & _ & _ & _ & _ & _ & H7 & H8).
  split; [done|]. rewrite <- H7. set_solver.
Qed.
